(** * The agent-loop ledger and its web front end

    A shallow embedding of
    - [solaris-browse/migrations/01_create_tables.sql]: the tables [agents]
      and [agent_loops], and the [next_iteration] trigger function;
    - [app/api/submitform/route.ts]: the [POST] handler that forwards a form
      to the provisioning backend;
    - [my-app/app/components/Form.tsx]: the [handleSubmit] state transition;
    - [my-app/app/components/Metrics.tsx]: the choice of the displayed data.

    Definitions come first, one module per source file; the theorems follow. *)

From Stdlib Require Import ZArith Bool String List Lia Permutation.
Import ListNotations.
Open Scope Z_scope.

Set Warnings "-register-all".

(* ===================================================================== *)
(** ** 01_create_tables.sql *)
(* ===================================================================== *)

Module Ledger.

(** [UUID] values are 128-bit numbers. *)
Definition uuid := N.

(** The error conditions PostgreSQL raises for the statements modelled. *)
Inductive sql_error :=
| numeric_value_out_of_range
| not_null_violation
| unique_violation
| foreign_key_violation.

Inductive result (A : Type) :=
| Ok (a : A)
| Err (e : sql_error).
Arguments Ok {A} a.
Arguments Err {A} e.

(** [CREATE TABLE agents (id UUID PRIMARY KEY, session_id UUID NOT NULL,
    intent TEXT)]. *)
Record agent := {
  id : uuid;
  session_id : uuid;
  intent : option string
}.

(** [CREATE TABLE agent_loops]: a stored row. [agent_id] and [iteration]
    are [NOT NULL]; the two [TEXT] columns may be [NULL]. *)
Record agent_loop := {
  agent_id : uuid;
  iteration : Z;
  plan_result : option string;
  execution_result : option string
}.

(** The tuple [NEW] of an [INSERT INTO agent_loops]: every column may still
    be [NULL] when the [BEFORE INSERT] trigger sees it. *)
Record new_row := {
  new_agent_id : option uuid;
  new_iteration : option Z;
  new_plan_result : option string;
  new_execution_result : option string
}.

Record database := {
  agents : list agent;
  agent_loops : list agent_loop
}.

(** [INTEGER] is a signed 32-bit type. *)
Definition INT_MIN : Z := -2147483648.
Definition INT_MAX : Z := 2147483647.

Definition int4 (z : Z) : bool := (INT_MIN <=? z) && (z <=? INT_MAX).

(** [SELECT iteration FROM agent_loops WHERE agent_id = a], in table order. *)
Definition iterations_of (t : list agent_loop) (a : uuid) : list Z :=
  map iteration (filter (fun r => N.eqb (agent_id r) a) t).

(** The aggregate [MAX]: [NULL] over no rows. *)
Fixpoint sql_max (l : list Z) : option Z :=
  match l with
  | [] => None
  | x :: l' =>
      match sql_max l' with
      | None => Some x
      | Some m => Some (Z.max x m)
      end
  end.

(** [SELECT MAX(iteration) FROM agent_loops WHERE agent_id = NEW.agent_id].
    A [NULL] agent_id compares equal to no row. *)
Definition select_max_iteration (t : list agent_loop) (a : option uuid)
  : option Z :=
  match a with
  | Some a => sql_max (iterations_of t a)
  | None => None
  end.

(** [COALESCE(MAX(iteration) + 1, 1)]: the sum is [NULL] when the maximum is,
    and integer addition raises on overflow. *)
Definition coalesce_max_plus_1 (m : option Z) : result Z :=
  match m with
  | None => Ok 1
  | Some m =>
      if m + 1 <=? INT_MAX then Ok (m + 1)
      else Err numeric_value_out_of_range
  end.

Definition with_iteration (n : new_row) (i : Z) : new_row :=
  {| new_agent_id := new_agent_id n;
     new_iteration := Some i;
     new_plan_result := new_plan_result n;
     new_execution_result := new_execution_result n |}.

(** The trigger function [next_iteration()], run [BEFORE INSERT ... FOR EACH
    ROW]: it fills the iteration only when [NEW.iteration IS NULL] and
    returns [NEW]. *)
Definition next_iteration (t : list agent_loop) (NEW : new_row)
  : result new_row :=
  match new_iteration NEW with
  | None =>
      match coalesce_max_plus_1 (select_max_iteration t (new_agent_id NEW)) with
      | Ok i => Ok (with_iteration NEW i)
      | Err e => Err e
      end
  | Some _ => Ok NEW
  end.

(** First half of an insert: the supplied iteration is coerced to [INTEGER],
    then the trigger [set_iteration] fires. *)
Definition before_insert (db : database) (n : new_row) : result new_row :=
  match new_iteration n with
  | Some i =>
      if int4 i then next_iteration (agent_loops db) n
      else Err numeric_value_out_of_range
  | None => next_iteration (agent_loops db) n
  end.

Definition has_key (t : list agent_loop) (a : uuid) (i : Z) : bool :=
  existsb (fun r => N.eqb (agent_id r) a && Z.eqb (iteration r) i) t.

Definition agent_exists (ags : list agent) (a : uuid) : bool :=
  existsb (fun g => N.eqb (id g) a) ags.

(** The constraints on the tuple the trigger returned, in the order the
    executor applies them: the [NOT NULL] columns, the primary key
    [(agent_id, iteration)] when the index entry is made, and the reference
    to [agents(id)] at the end of the statement. *)
Definition check_constraints (db : database) (n : new_row)
  : result agent_loop :=
  match new_agent_id n, new_iteration n with
  | Some a, Some i =>
      if has_key (agent_loops db) a i then Err unique_violation
      else if agent_exists (agents db) a then
        Ok {| agent_id := a; iteration := i;
              plan_result := new_plan_result n;
              execution_result := new_execution_result n |}
      else Err foreign_key_violation
  | _, _ => Err not_null_violation
  end.

Definition store_row (db : database) (r : agent_loop) : database :=
  {| agents := agents db; agent_loops := agent_loops db ++ [r] |}.

(** Second half of an insert: the row is stored when every constraint holds,
    and nothing is stored otherwise. *)
Definition complete_insert (db : database) (n : new_row)
  : database * result agent_loop :=
  match check_constraints db n with
  | Ok r => (store_row db r, Ok r)
  | Err e => (db, Err e)
  end.

(** [INSERT INTO agent_loops VALUES (...)] run on its own. *)
Definition insert (db : database) (n : new_row)
  : database * result agent_loop :=
  match before_insert db n with
  | Ok n' => complete_insert db n'
  | Err e => (db, Err e)
  end.

(** An insert that leaves the iteration to the trigger. *)
Definition cycle (a : uuid) (p e : option string) : new_row :=
  {| new_agent_id := Some a; new_iteration := None;
     new_plan_result := p; new_execution_result := e |}.

(** An insert that supplies the iteration. *)
Definition append (a : uuid) (i : Z) (p e : option string) : new_row :=
  {| new_agent_id := Some a; new_iteration := Some i;
     new_plan_result := p; new_execution_result := e |}.

(** One such insert per payload, for the same agent. *)
Definition cycles (a : uuid) (payloads : list (option string * option string))
  : list new_row :=
  map (fun pe => cycle a (fst pe) (snd pe)) payloads.

(** The iteration a successful insert stored. *)
Definition ok_iteration (r : result agent_loop) : option Z :=
  match r with Ok x => Some (iteration x) | Err _ => None end.

(** A sequence of inserts, one statement after the other; the results are
    returned in call order. *)
Fixpoint insert_all (db : database) (ns : list new_row)
  : database * list (result agent_loop) :=
  match ns with
  | [] => (db, [])
  | n :: ns' =>
      let (db1, r) := insert db n in
      let (db2, rs) := insert_all db1 ns' in
      (db2, r :: rs)
  end.

(** [SELECT ... WHERE agent_id = a AND iteration = i]. *)
Definition get (t : list agent_loop) (a : uuid) (i : Z) : option agent_loop :=
  find (fun r => N.eqb (agent_id r) a && Z.eqb (iteration r) i) t.

(** Modelled from the spec: the Loop Reader is not part of the sources; its
    [History(agent_id)] is the agent's records ordered by iteration
    ascending, here their iteration numbers. *)
Fixpoint insert_sorted (x : Z) (l : list Z) : list Z :=
  match l with
  | [] => [x]
  | y :: l' => if x <=? y then x :: l else y :: insert_sorted x l'
  end.

Definition History (t : list agent_loop) (a : uuid) : list Z :=
  fold_right insert_sorted [] (iterations_of t a).

(** [z; z+1; ...], [n] numbers. *)
Fixpoint Zseq (z : Z) (n : nat) : list Z :=
  match n with
  | O => []
  | S n' => z :: Zseq (z + 1) n'
  end.

(** The ledger invariant for one agent: the iterations stored are exactly
    [1 .. N], each once. *)
Definition contiguous_from_1 (t : list agent_loop) (a : uuid) : Prop :=
  exists N : nat, Permutation (iterations_of t a) (Zseq 1 N).

Definition ledger_invariant (t : list agent_loop) : Prop :=
  forall a, contiguous_from_1 t a.

(** Every stored row refers to a registered agent: what the reference
    [agent_loops.agent_id -> agents(id)] maintains. *)
Definition referential_integrity (db : database) : bool :=
  forallb (fun r => agent_exists (agents db) (agent_id r)) (agent_loops db).

(** *** Concurrent callers

    Each caller runs one insert as its own transaction. The trigger's
    [SELECT] reads the rows committed when it runs; the row is checked
    against the primary key and becomes visible when the statement commits.
    Between the two, other callers may run: a call is [Calling] before its
    trigger has fired, [Triggered] once [NEW] is final, and [Finished] with
    its result. *)
Inductive call :=
| Calling (n : new_row)
| Triggered (n : new_row)
| Finished (r : result agent_loop).

Record config := {
  store : database;
  calls : list call
}.

Definition advance (db : database) (c : call) : database * call :=
  match c with
  | Calling n =>
      match before_insert db n with
      | Ok n' => (db, Triggered n')
      | Err e => (db, Finished (Err e))
      end
  | Triggered n =>
      let (db', r) := complete_insert db n in (db', Finished r)
  | Finished r => (db, Finished r)
  end.

Fixpoint replace_nth (i : nat) (c : call) (cs : list call) {struct cs}
  : list call :=
  match cs, i with
  | [], _ => []
  | _ :: cs', O => c :: cs'
  | c0 :: cs', S i' => c0 :: replace_nth i' c cs'
  end.

(** Caller [i] takes its next step; a caller that does not exist, or has
    finished, leaves the configuration as it is. *)
Definition step (cfg : config) (i : nat) : config :=
  match nth_error (calls cfg) i with
  | Some c =>
      let (db', c') := advance (store cfg) c in
      {| store := db'; calls := replace_nth i c' (calls cfg) |}
  | None => cfg
  end.

(** An interleaving is the list of the callers' turns. *)
Definition run (sched : list nat) (cfg : config) : config :=
  fold_left step sched cfg.

Definition is_finished (c : call) : bool :=
  match c with Finished _ => true | _ => false end.

Definition all_finished (cfg : config) : bool :=
  forallb is_finished (calls cfg).

(** The iterations handed to the calls that succeeded, in caller order. *)
Fixpoint assigned (cs : list call) : list Z :=
  match cs with
  | [] => []
  | Finished (Ok r) :: cs' => iteration r :: assigned cs'
  | _ :: cs' => assigned cs'
  end.

(** The errors of the calls that failed, in caller order. *)
Fixpoint failures (cs : list call) : list sql_error :=
  match cs with
  | [] => []
  | Finished (Err e) :: cs' => e :: failures cs'
  | _ :: cs' => failures cs'
  end.

(** [K] callers recording a cycle for the same agent, none started. *)
Definition spawn (db : database) (a : uuid)
  (payloads : list (option string * option string)) : config :=
  {| store := db; calls := map Calling (cycles a payloads) |}.

(** The value the trigger would assign on [db] for agent [a], when it does
    not overflow: the prior maximum plus one, or 1. *)
Definition next_free (t : list agent_loop) (a : uuid) : Z :=
  match sql_max (iterations_of t a) with
  | Some m => m + 1
  | None => 1
  end.

(** A call that has not started and leaves the iteration to the trigger. *)
Definition leaves_iteration_null (c : call) : bool :=
  match c with
  | Calling n => match new_iteration n with None => true | Some _ => false end
  | _ => false
  end.

(** What holds of a call of such a pool while it runs, on table [t]: once
    the trigger has fired, the value it chose is at most one more than the
    number of records the agent has. *)
Definition call_in_range (t : list agent_loop) (c : call) : Prop :=
  match c with
  | Calling n => new_iteration n = None
  | Triggered n =>
      exists v, new_iteration n = Some v /\
        forall a, new_agent_id n = Some a ->
          1 <= v <= Z.of_nat (length (iterations_of t a)) + 1
  | Finished _ => True
  end.

Definition pool_invariant (cfg : config) : Prop :=
  ledger_invariant (agent_loops (store cfg)) /\
  Forall (call_in_range (agent_loops (store cfg))) (calls cfg).

(** The property of a finished pool that C2 asks for: every call succeeded,
    and the iterations handed out are distinct and fill the range that
    starts at [first]. *)
Definition all_distinct_contiguous (first : Z) (cfg : config) : Prop :=
  Permutation (assigned (calls cfg)) (Zseq first (length (calls cfg))).

(** What holds of a call racing with others for agent [a], once [M] rows
    have been stored since the pool started at [first]. *)
Definition call_racing (a : uuid) (first : Z) (M : nat) (c : call) : Prop :=
  match c with
  | Calling n => exists p e, n = cycle a p e
  | Triggered n =>
      exists v p e, n = append a v p e /\ first <= v <= first + Z.of_nat M
  | Finished (Ok _) => True
  | Finished (Err e) =>
      (e = unique_violation /\ (0 < M)%nat) \/
      (e = numeric_value_out_of_range /\ INT_MAX < first + Z.of_nat M)
  end.

Definition race_invariant (db0 : database) (a : uuid) (cfg : config) : Prop :=
  exists rows : list agent_loop,
    agents (store cfg) = agents db0 /\
    agent_loops (store cfg) = agent_loops db0 ++ rows /\
    Forall (fun r => agent_id r = a) rows /\
    map iteration rows = Zseq (next_free (agent_loops db0) a) (length rows) /\
    Permutation (assigned (calls cfg))
                (Zseq (next_free (agent_loops db0) a) (length rows)) /\
    Forall (call_racing a (next_free (agent_loops db0) a) (length rows))
           (calls cfg).

(** Sample data. *)
Definition agent_A1 : agent :=
  {| id := 1%N; session_id := 100%N; intent := Some "buy shoes"%string |}.

Definition db_A1 : database := {| agents := [agent_A1]; agent_loops := [] |}.

Definition two_calls : list (option string * option string) :=
  [ (Some "plan: click search"%string, Some "clicked search"%string);
    (Some "plan: type query"%string, Some "typed query"%string) ].

(** *** The table [agents]

    [INSERT INTO agents]: the [id] column is either left to its default
    [uuid_generate_v4()] or given (possibly as [NULL]). *)
Inductive id_column :=
| id_default
| id_given (v : option uuid).

Record new_agent := {
  new_id : id_column;
  new_session_id : option uuid;
  new_intent : option string
}.

(** [generated] is the value [uuid_generate_v4()] returns for this row. The
    primary key makes [id] [NOT NULL] and unique; [session_id] is
    [NOT NULL]. *)
Definition insert_agent (generated : uuid) (db : database) (n : new_agent)
  : database * result agent :=
  let id_value :=
    match new_id n with
    | id_default => Some generated
    | id_given v => v
    end in
  match id_value, new_session_id n with
  | Some i, Some s =>
      if agent_exists (agents db) i then (db, Err unique_violation)
      else
        let g := {| id := i; session_id := s; intent := new_intent n |} in
        ({| agents := agents db ++ [g]; agent_loops := agent_loops db |},
         Ok g)
  | _, _ => (db, Err not_null_violation)
  end.

(** The primary-key values of the stored rows. *)
Definition keys (t : list agent_loop) : list (uuid * Z) :=
  map (fun r => (agent_id r, iteration r)) t.

(** [SELECT * FROM agent_loops WHERE agent_id = a], in table order. *)
Definition rows_of (t : list agent_loop) (a : uuid) : list agent_loop :=
  filter (fun r => N.eqb (agent_id r) a) t.

(** The agent a call writes for, while it can still write. *)
Definition call_agent (c : call) : option uuid :=
  match c with
  | Calling n => new_agent_id n
  | Triggered n => new_agent_id n
  | Finished _ => None
  end.

(** A call whose tuple is typed: a supplied iteration is an [INTEGER]. An
    insert statement cannot start from a tuple the trigger has already
    seen. *)
Definition call_typed (c : call) : bool :=
  match c with
  | Calling _ => true
  | Triggered n =>
      match new_iteration n with Some i => int4 i | None => false end
  | Finished _ => true
  end.

(** The interleaving in which caller 0 runs both its steps, then caller 1,
    and so on: [from; from; from+1; from+1; ...]. *)
Fixpoint serial (from count : nat) : list nat :=
  match count with
  | O => []
  | S count' => from :: from :: serial (S from) count'
  end.

End Ledger.

(* ===================================================================== *)
(** ** JSON values and exceptions *)
(* ===================================================================== *)

Module Json.

(** A statement either returns or throws. *)
Inductive completion (A : Type) :=
| Returned (a : A)
| Thrown.
Arguments Returned {A} a.
Arguments Thrown {A}.

Definition bind {A B} (c : completion A) (k : A -> completion B)
  : completion B :=
  match c with
  | Returned a => k a
  | Thrown => Thrown
  end.

(** An awaited promise that rejects throws. *)
Definition await {A} (o : option A) : completion A :=
  match o with
  | Some a => Returned a
  | None => Thrown
  end.

Section Values.

(** JavaScript numbers are carried around by this code, tested for being
    zero and written out as JSON, so their type is left open. *)
Context {number : Type}.

(** What [JSON.parse] produces. The fields of an object are its own
    properties, each key once. *)
Inductive value :=
| JNull
| JBool (b : bool)
| JNumber (n : number)
| JString (s : string)
| JArray (xs : list value)
| JObject (fields : list (string * value)).

Definition lookup (k : string) (fields : list (string * value))
  : option value :=
  match find (fun kv => String.eqb (fst kv) k) fields with
  | Some kv => Some (snd kv)
  | None => None
  end.

(** [v.k], for the property names this code reads ([sessionId],
    [debuggingUrl], [status], [title], [error]), none of which is inherited
    from a prototype: reading from [null] throws a [TypeError], a missing
    property is [undefined] ([None]). *)
Definition property (v : value) (k : string) : completion (option value) :=
  match v with
  | JNull => Thrown
  | JObject fields => Returned (lookup k fields)
  | _ => Returned None
  end.

(** [JSON.stringify] of an object literal leaves out the properties whose
    value is [undefined]. *)
Fixpoint defined_properties (obj : list (string * option value))
  : list (string * value) :=
  match obj with
  | [] => []
  | (k, Some v) :: obj' => (k, v) :: defined_properties obj'
  | (_, None) :: obj' => defined_properties obj'
  end.

(** [JSON.parse(JSON.stringify(v))]: what a value becomes when it is
    written out and read again. [number_json n] is what becomes of the
    number [n]: [Infinity], which [JSON.parse] gives for a literal such as
    [1e400], is written as [null], and [-0] as [0]. *)
Fixpoint reserialised (number_json : number -> value) (v : value) : value :=
  match v with
  | JNumber n => number_json n
  | JArray xs => JArray (map (reserialised number_json) xs)
  | JObject fields =>
      JObject (map (fun kv => match kv with
                              | (k, x) => (k, reserialised number_json x)
                              end) fields)
  | JNull | JBool _ | JString _ => v
  end.

(** What React accepts as a child: text, a number, [null] and booleans
    (which render nothing), and arrays of these. An object as a child makes
    the render throw. *)
Fixpoint renderable (v : value) : bool :=
  match v with
  | JObject _ => false
  | JArray xs => forallb renderable xs
  | JNull | JBool _ | JNumber _ | JString _ => true
  end.

(** Truthiness, with [number_is_zero] telling [0] and [-0] from the other
    numbers ([NaN] is not a JSON number). *)
Definition truthy (number_is_zero : number -> bool) (v : option value) : bool :=
  match v with
  | None => false
  | Some JNull => false
  | Some (JBool b) => b
  | Some (JNumber n) => negb (number_is_zero n)
  | Some (JString s) => negb (String.eqb s "")
  | Some (JArray _) => true
  | Some (JObject _) => true
  end.

(** What a [fetch] followed by [response.json()] can give: [fetch] rejects,
    or there is a response with a status and a body that parses as JSON or
    does not. *)
Inductive fetch_result :=
| NetworkError
| Reply (http_status : Z) (json : option value).

(** [response.ok]. *)
Definition ok (http_status : Z) : bool :=
  (200 <=? http_status) && (http_status <=? 299).

End Values.

Arguments value : clear implicits.
Arguments fetch_result : clear implicits.

(** Sample numbers: the integers, which are finite and written as they
    are. *)
Definition integer_json (n : Z) : value Z := JNumber n.

End Json.

Declare Scope completion_scope.
Delimit Scope completion_scope with completion.
Notation "'let*' x ':=' c 'in' k" :=
  (Json.bind c (fun x => k))
  (at level 10, x name, c at level 100, k at level 200) : completion_scope.

(* ===================================================================== *)
(** ** app/api/submitform/route.ts *)
(* ===================================================================== *)

Module SubmitRoute.
Import Json.
Local Open Scope completion_scope.
Local Open Scope string_scope.

Section Route.
Context {number : Type} (number_json : number -> value number).

Record response := {
  status : Z;
  body : value number
}.

(** [NextResponse.json(obj, { status })]: the body is
    [JSON.stringify(obj)], given here as the client parses it. *)
Definition NextResponse_json (obj : list (string * option (value number)))
  (st : Z) : response :=
  {| status := st;
     body := reserialised number_json (JObject (defined_properties obj)) |}.

(** The body of the [try] block. [req_json] is the outcome of
    [await req.json()]; [backend] is the service at
    [http://localhost:8000/execute], which receives [JSON.stringify(data)],
    given here as it parses it. *)
Definition try_block (req_json : option (value number))
  (backend : value number -> fetch_result number) : completion response :=
  let* data := await req_json in
  let* responseData :=
    match backend (reserialised number_json data) with
    | NetworkError => Thrown
    | Reply _ json => await json
    end in
  let* sessionId := property responseData "sessionId" in
  let* debuggingUrl := property responseData "debuggingUrl" in
  let* status := property responseData "status" in
  let* title := property responseData "title" in
  Returned (NextResponse_json
              [("sessionId", sessionId); ("debuggingUrl", debuggingUrl);
               ("status", status); ("title", title)] 200).

(** The [catch] block. *)
Definition something_went_wrong : response :=
  NextResponse_json [("error", Some (JString "Something went wrong"))] 500.

Definition POST (req_json : option (value number))
  (backend : value number -> fetch_result number) : response :=
  match try_block req_json backend with
  | Returned r => r
  | Thrown => something_went_wrong
  end.

(** The ways a call of the route can fail, as the specification names
    them. *)
Inductive failure_cause :=
| malformed_body
| unreachable_backend
| backend_reported_error.

(** The cause at work in a call, if any: a request body that is not JSON, a
    backend that cannot be reached, or a backend reply with a status outside
    200..299. *)
Definition cause_of (req_json : option (value number))
  (backend : value number -> fetch_result number) : option failure_cause :=
  match req_json with
  | None => Some malformed_body
  | Some data =>
      match backend (reserialised number_json data) with
      | NetworkError => Some unreachable_backend
      | Reply st _ => if ok st then None else Some backend_reported_error
      end
  end.

(** The calls in which a statement of the [try] block throws. *)
Definition throws (req_json : option (value number))
  (backend : value number -> fetch_result number) : bool :=
  match req_json with
  | None => true
  | Some data =>
      match backend (reserialised number_json data) with
      | NetworkError => true
      | Reply _ None => true
      | Reply _ (Some JNull) => true
      | Reply _ (Some _) => false
      end
  end.

(** The reading of C7: calls that fail for different causes get different
    responses. *)
Definition distinguishes_causes : Prop :=
  forall req1 backend1 req2 backend2 c1 c2,
    cause_of req1 backend1 = Some c1 ->
    cause_of req2 backend2 = Some c2 ->
    c1 <> c2 ->
    POST req1 backend1 <> POST req2 backend2.

(** The reading of C8: every call is answered either with exactly the four
    fields of the session, or with a failure. *)
Definition four_fields_or_failure (req_json : option (value number))
  (backend : value number -> fetch_result number) : Prop :=
  (exists sessionId debuggingUrl status title,
     POST req_json backend
     = {| status := 200;
          body := JObject [("sessionId", sessionId);
                           ("debuggingUrl", debuggingUrl);
                           ("status", status); ("title", title)] |}) \/
  (exists message,
     POST req_json backend
     = {| status := 500; body := JObject [("error", message)] |}).

End Route.

Arguments response : clear implicits.
Arguments distinguishes_causes {number} number_json.

(** Sample data: a backend that provisions a session, with integers for
    numbers. *)
Definition sample_reply : value Z :=
  JObject [("sessionId", JString "s-1");
           ("debuggingUrl", JString "ws://localhost:9222/devtools");
           ("status", JString "running");
           ("title", JString "Example Domain");
           ("pages", JNumber 1)].

Definition sample_backend : value Z -> fetch_result Z :=
  fun _ => Reply 200 (Some sample_reply).

(** A backend that reports an error. *)
Definition failing_backend : value Z -> fetch_result Z :=
  fun _ => Reply 500 (Some (JObject [("error", JString "boom")])).

End SubmitRoute.

(* ===================================================================== *)
(** ** my-app/app/components/Form.tsx *)
(* ===================================================================== *)

Module FormComponent.
Import Json.
Local Open Scope completion_scope.
Local Open Scope string_scope.

(** [interface requestData]. *)
Record requestData := {
  url : string;
  intent : string;
  context : string
}.

(** The [name] attributes of the three inputs. *)
Inductive input_name := name_url | name_intent | name_context.

Section Form.
Context {number : Type} (number_is_zero : number -> bool).

(** The four [useState] cells; [data] is the cell [requestData]. [error] is
    [null] ([None]) or a value. *)
Record state := {
  data : requestData;
  submitted : bool;
  loading : bool;
  error : option (value number)
}.

Definition initial : state :=
  {| data := {| url := ""; intent := ""; context := "" |};
     submitted := false; loading := false; error := None |}.

Definition setRequestData (d : requestData) (st : state) : state :=
  {| data := d; submitted := submitted st;
     loading := loading st; error := error st |}.

Definition setSubmitted (b : bool) (st : state) : state :=
  {| data := data st; submitted := b;
     loading := loading st; error := error st |}.

Definition setLoading (b : bool) (st : state) : state :=
  {| data := data st; submitted := submitted st;
     loading := b; error := error st |}.

Definition setError (e : option (value number)) (st : state) : state :=
  {| data := data st; submitted := submitted st;
     loading := loading st; error := e |}.

(** [handleChange]: [{ ...prevData, [name]: value }]. *)
Definition handleChange (name : input_name) (v : string) (st : state) : state :=
  let d := data st in
  setRequestData
    match name with
    | name_url => {| url := v; intent := intent d; context := context d |}
    | name_intent => {| url := url d; intent := v; context := context d |}
    | name_context => {| url := url d; intent := intent d; context := v |}
    end st.

(** [JSON.stringify(requestData)], as the server parses it. *)
Definition request_body (d : requestData) : value number :=
  JObject [("url", JString (url d)); ("intent", JString (intent d));
           ("context", JString (context d))].

(** [a || b]. *)
Definition or_else (a : option (value number)) (b : value number)
  : option (value number) :=
  if truthy number_is_zero a then a else Some b.

(** [handleSubmit] up to its first [await]: [setLoading(true)],
    [setError(null)], and the request is sent. *)
Definition submit_start (st : state) : state :=
  setError None (setLoading true st).

(** The [try] block once the request has settled with [o], on the state of
    that moment. *)
Definition submit_try (o : fetch_result number) (st : state)
  : completion state :=
  match o with
  | NetworkError => Thrown
  | Reply http_status json =>
      let* result := await json in
      if ok http_status then
        Returned (setRequestData {| url := ""; intent := ""; context := "" |}
                    (setSubmitted true st))
      else
        let* e := property result "error" in
        Returned (setError (or_else e (JString "Unknown error")) st)
  end.

(** [try ... catch ... finally]. *)
Definition submit_settle (o : fetch_result number) (st : state) : state :=
  setLoading false
    match submit_try o st with
    | Returned st' => st'
    | Thrown => setError (Some (JString "Error occurred while submitting :(")) st
    end.

(** [handleSubmit] against a server, with nothing else happening while the
    request is pending. *)
Definition handleSubmit (server : value number -> fetch_result number)
  (st : state) : state :=
  submit_settle (server (request_body (data st))) (submit_start st).

(** The request failed: [fetch] threw, or the response is not [ok]. *)
Definition request_failed (o : fetch_result number) : bool :=
  match o with
  | NetworkError => true
  | Reply http_status _ => negb (ok http_status)
  end.

(** The route of [route.ts] as the server of the form: the form's body is
    JSON, and the route answers with a status and a JSON body. *)
Definition route_server (number_json : number -> value number)
  (backend : value number -> fetch_result number)
  : value number -> fetch_result number :=
  fun body =>
    let r := SubmitRoute.POST number_json (Some body) backend in
    Reply (SubmitRoute.status r) (Some (SubmitRoute.body r)).

(** The [useEffect] on [submitted]: while [submitted] is set a timer is
    pending, and its callback is [setSubmitted(false)]. *)
Definition timeout_elapsed (st : state) : state :=
  if submitted st then setSubmitted false st else st.

(** [{error && <p>{error}</p>}]: the paragraph when [error] is truthy,
    otherwise the falsy value itself. *)
Inductive error_slot :=
| error_paragraph (e : value number)
| no_paragraph (e : option (value number)).

(** What the component returns when it renders. *)
Inductive view :=
| success_message (text : string)
| form_view (url_input intent_input context_input : string)
            (button_disabled : bool) (button_label : string)
            (below : error_slot).

(** Rendering throws when the error paragraph is given a child React does
    not accept. *)
Definition render (st : state) : completion view :=
  if submitted st
  then Returned (success_message "Form submitted successfully!")
  else
    let* below :=
      match error st with
      | Some e =>
          if truthy number_is_zero (Some e) then
            if renderable e then Returned (error_paragraph e) else Thrown
          else Returned (no_paragraph (Some e))
      | None => Returned (no_paragraph None)
      end in
    Returned
      (form_view (url (data st)) (intent (data st)) (context (data st))
         (loading st)
         (if loading st then "Submitting..." else "Submit")
         below).

(** The key of [requestData] an input writes. *)
Definition key_of (name : input_name) : string :=
  match name with
  | name_url => "url"
  | name_intent => "intent"
  | name_context => "context"
  end.

End Form.

Arguments state : clear implicits.

(** Sample data, with integers for numbers. *)
Definition is_zero (n : Z) : bool := Z.eqb n 0.

Definition sample_request : requestData :=
  {| url := "https://example.com"; intent := "buy shoes"; context := "" |}.

Definition sample_state : state Z :=
  {| data := sample_request; submitted := false;
     loading := true; error := None |}.

End FormComponent.

(* ===================================================================== *)
(** ** my-app/app/components/Metrics.tsx *)
(* ===================================================================== *)

Module MetricsComponent.
Local Open Scope string_scope.

Section Metrics.

(** [number] values, and the numeric literals of the source. *)
Context {number : Type} (literal : Z -> number).

(** [value: string|number]. *)
Inductive string_or_number :=
| Str (s : string)
| Num (n : number).

(** [interface Metric]. *)
Record Metric := {
  id : number;
  title : string;
  value : string_or_number
}.

(** An array is an object: the same elements at another address are another
    array. *)
Record array := {
  address : nat;
  elements : list Metric
}.

(** [const mockData = [...]], allocated by the call at the next free
    address [fresh]. *)
Definition mockData (fresh : nat) : array :=
  {| address := fresh;
     elements :=
       [ {| id := literal 1; title := "Completion Rate"; value := Str "0%" |};
         {| id := literal 2; title := "Steps to completion";
            value := Num (literal 20) |};
         {| id := literal 4; title := "Error Rate"; value := Str "0%" |};
         {| id := literal 3; title := "Recommendation";
            value := Str "We recommend you do this!" |} ] |}.

(** [metrics || mockData]: an array, even an empty one, is truthy;
    [undefined] ([None]) is not. *)
Definition or_else (metrics : option array) (dflt : array) : array :=
  match metrics with
  | Some a => a
  | None => dflt
  end.

Definition dataDisplayed (fresh : nat) (metrics : option array) : array :=
  or_else metrics (mockData fresh).

(** One [<div key=...>] per element. *)
Record card := {
  key : number;
  heading : string;
  text : string_or_number
}.

Definition Metrics (fresh : nat) (metrics : option array) : list card :=
  map (fun metric => {| key := id metric; heading := title metric;
                        text := value metric |})
      (elements (dataDisplayed fresh metrics)).

(** A prop handed to the component was allocated before the call. *)
Definition allocated_before (fresh : nat) (metrics : option array) : Prop :=
  match metrics with
  | Some a => (address a < fresh)%nat
  | None => True
  end.

End Metrics.

Arguments Metric : clear implicits.
Arguments array : clear implicits.
Arguments card : clear implicits.
Arguments string_or_number : clear implicits.

(** Sample data: an empty array allocated at address 0. *)
Definition no_metrics : array Z := {| address := 0; elements := [] |}.

(** Two metrics in an array allocated at address 1. *)
Definition two_metrics : array Z :=
  {| address := 1;
     elements := [ {| id := 7; title := "Latency"; value := Num 120 |};
                   {| id := 8; title := "Verdict"; value := Str "ok" |} ] |}.

End MetricsComponent.

(* ===================================================================== *)
(** ** The page with the browser view *)
(* ===================================================================== *)

Module HomePage.
Import Json.
Local Open Scope completion_scope.
Local Open Scope string_scope.

Section Home.
Context {number : Type} (number_is_zero : number -> bool).

(** [handleExecute] on the cell [debuggingUrl] ([undefined] is [None]), once
    the [fetch] of [http://localhost:8000/execute] has settled with [o]: the
    [catch] block only logs. *)
Definition handleExecute (o : fetch_result number)
  (debuggingUrl : option (value number)) : option (value number) :=
  match (let* data :=
           match o with
           | NetworkError => Thrown
           | Reply _ json => await json
           end in
         let* url := property data "debuggingUrl" in
         Returned url)
  with
  | Returned url => url
  | Thrown => debuggingUrl
  end.

End Home.

End HomePage.

Module BrowserView.
Import Json.
Local Open Scope completion_scope.
Local Open Scope string_scope.

(** [interface Step]. *)
Inductive action :=
| navigate | click | scroll | type | hover | select | submit.

Inductive step_status := pending | completed | failed.

Section View.
Context {number : Type} (number_is_zero : number -> bool).

Record Step := {
  name : string;
  description : string;
  step_action : action;
  target : option string;
  value_typed : option string;
  status : step_status;
  timestamp : option number
}.

(** The two [useState] cells. *)
Record state := {
  steps : list Step;
  loading : bool
}.

Definition initial : state := {| steps := []; loading := true |}.

Definition setLoading (b : bool) (st : state) : state :=
  {| steps := steps st; loading := b |}.

(** The module declares no [setSessions]: evaluating the identifier throws
    a [ReferenceError], before the argument of the call is looked at. *)
Definition setSessions : completion (option (value number) -> state -> state)
  := Thrown.

(** [fetchSessions], once the [fetch] of [/session/] has settled with [o]:
    [try { ... setSessions(data.sessions) } catch { log } finally
    { setLoading(false) }]. *)
Definition fetchSessions (o : fetch_result number) (st : state) : state :=
  setLoading false
    match (let* data :=
             match o with
             | NetworkError => Thrown
             | Reply _ json => await json
             end in
           let* set := setSessions in
           let* sessions := property data "sessions" in
           Returned (set sessions st))
    with
    | Returned st' => st'
    | Thrown => st
    end.

(** The effect polls: once at mount, then every five seconds. *)
Definition poll (os : list (fetch_result number)) (st : state) : state :=
  fold_left (fun s o => fetchSessions o s) os st.

(** What the component returns: the main area and the sidebar. *)
Inductive main_area :=
| iframe (src : value number)
| no_active_session.

Inductive sidebar :=
| loading_sessions
| step_list (items : list (string * step_status * string)).

Definition render (debuggingUrl : option (value number)) (st : state)
  : main_area * sidebar :=
  (match debuggingUrl with
   | Some src =>
       if truthy number_is_zero (Some src) then iframe src
       else no_active_session
   | None => no_active_session
   end,
   if loading st then loading_sessions
   else step_list (map (fun s => (name s, status s, description s))
                       (steps st))).

End View.

Arguments Step : clear implicits.
Arguments state : clear implicits.
Arguments main_area : clear implicits.

End BrowserView.

(* ===================================================================== *)
(** ** The dashboard of Metrics.tsx *)
(* ===================================================================== *)

Module DashboardComponent.
Local Open Scope string_scope.

(** The two [useState] cells. *)
Record state := {
  loading : bool;
  showStreaming : bool
}.

Definition initial : state := {| loading := true; showStreaming := true |}.

(** [handleToggle]: [setShowStreaming((prev) => !prev)]. *)
Definition handleToggle (st : state) : state :=
  {| loading := loading st; showStreaming := negb (showStreaming st) |}.

(** The callback of the [setTimeout] set at mount: [setLoading(false)]. *)
Definition timeout_elapsed (st : state) : state :=
  {| loading := false; showStreaming := showStreaming st |}.

Inductive event := toggle | timeout.

Definition handle (st : state) (ev : event) : state :=
  match ev with
  | toggle => handleToggle st
  | timeout => timeout_elapsed st
  end.

Definition after (evs : list event) : state := fold_left handle evs initial.

Definition is_toggle (ev : event) : bool :=
  match ev with toggle => true | timeout => false end.

Definition is_timeout (ev : event) : bool :=
  match ev with toggle => false | timeout => true end.

Section View.
Context {number : Type} (literal : Z -> number).

(** Below the button: [<Metrics/>], without props, or a text. *)
Inductive stream_area :=
| metrics_cards (cards : list (MetricsComponent.card number))
| text (s : string).

Record view := {
  button : string;
  stream : stream_area;
  spinner : bool
}.

(** [fresh] is the next free address when [Metrics] is called. *)
Definition render (fresh : nat) (st : state) : view :=
  {| button := if showStreaming st then "Hide Stream" else "Load Stream";
     stream :=
       if showStreaming st
       then metrics_cards (MetricsComponent.Metrics literal fresh None)
       else text "Loading...";
     spinner := loading st |}.

End View.

End DashboardComponent.

(* ===================================================================== *)
(** ** Properties of the ledger *)
(* ===================================================================== *)

Module LedgerFacts.
Import Ledger.

(** *** Lists of consecutive integers *)

Lemma Zseq_length z n : length (Zseq z n) = n.
Proof. revert z; induction n; intros; simpl; auto. Qed.

Lemma Zseq_In z n i : In i (Zseq z n) <-> z <= i < z + Z.of_nat n.
Proof.
  revert z; induction n as [|n IH]; intros z.
  - simpl. lia.
  - cbn [Zseq In]. rewrite IH. lia.
Qed.

Lemma Zseq_snoc z n : Zseq z (S n) = Zseq z n ++ [z + Z.of_nat n].
Proof.
  revert z; induction n as [|n IH]; intros z.
  - simpl. f_equal. lia.
  - change (Zseq z (S (S n))) with (z :: Zseq (z + 1) (S n)).
    rewrite IH. cbn [Zseq app]. do 3 f_equal. lia.
Qed.

Lemma Zseq_NoDup z n : NoDup (Zseq z n).
Proof.
  revert z; induction n as [|n IH]; intros z; simpl; constructor; auto.
  rewrite Zseq_In. lia.
Qed.

(** *** The aggregate [MAX] *)

Lemma sql_max_None l : sql_max l = None <-> l = [].
Proof.
  destruct l as [|x l]; simpl; [tauto|].
  destruct (sql_max l); split; intro H; discriminate H.
Qed.

Lemma sql_max_Some l m :
  sql_max l = Some m -> In m l /\ forall x, In x l -> x <= m.
Proof.
  revert m; induction l as [|x l IH]; intros m H; simpl in H; [discriminate|].
  destruct (sql_max l) as [m'|] eqn:E.
  - injection H as <-. destruct (IH m' eq_refl) as [Hin Hle]. split.
    + destruct (Z.max_spec x m') as [[_ ->]|[_ ->]]; simpl; auto.
    + intros y [<-|Hy]; [lia|]. specialize (Hle y Hy). lia.
  - injection H as <-. apply sql_max_None in E. subst l. split.
    + left; reflexivity.
    + intros y [<-|[]]. lia.
Qed.

Lemma sql_max_is l m :
  In m l -> (forall x, In x l -> x <= m) -> sql_max l = Some m.
Proof.
  intros Hin Hle. destruct (sql_max l) as [m'|] eqn:E.
  - destruct (sql_max_Some _ _ E) as [Hin' Hle'].
    f_equal. specialize (Hle _ Hin'). specialize (Hle' _ Hin). lia.
  - apply sql_max_None in E. subst l. destruct Hin.
Qed.

Lemma sql_max_Permutation l l' :
  Permutation l l' -> sql_max l = sql_max l'.
Proof.
  intros HP. destruct (sql_max l') as [m|] eqn:E.
  - destruct (sql_max_Some _ _ E) as [Hin Hle]. apply sql_max_is.
    + eapply Permutation_in; [symmetry; exact HP|exact Hin].
    + intros x Hx. apply Hle. eapply Permutation_in; eauto.
  - apply sql_max_None in E. subst l'. apply Permutation_sym, Permutation_nil in HP.
    subst l. reflexivity.
Qed.

Lemma sql_max_Zseq z n : sql_max (Zseq z (S n)) = Some (z + Z.of_nat n).
Proof.
  apply sql_max_is.
  - apply Zseq_In. lia.
  - intros x Hx. apply Zseq_In in Hx. lia.
Qed.

(** The value [COALESCE(MAX + 1, 1)] over a prefix followed by the numbers
    assigned after it. *)
Lemma next_after_Zseq l first n :
  first = match sql_max l with Some m => m + 1 | None => 1 end ->
  match sql_max (l ++ Zseq first n) with Some m => m + 1 | None => 1 end
  = first + Z.of_nat n.
Proof.
  intros Hf. destruct n as [|n].
  - simpl. rewrite app_nil_r. lia.
  - rewrite (sql_max_is (l ++ Zseq first (S n)) (first + Z.of_nat n)).
    + lia.
    + apply in_or_app. right. apply Zseq_In. lia.
    + intros x Hx. apply in_app_or in Hx. destruct Hx as [Hx|Hx].
      * destruct (sql_max l) as [m|] eqn:E.
        -- apply sql_max_Some in E. destruct E as [_ Hle].
           specialize (Hle x Hx). lia.
        -- apply sql_max_None in E. subst l. destruct Hx.
      * apply Zseq_In in Hx. lia.
Qed.

(** *** Rows and keys *)

Lemma iterations_of_app t t' a :
  iterations_of (t ++ t') a = iterations_of t a ++ iterations_of t' a.
Proof. unfold iterations_of. rewrite filter_app, map_app. reflexivity. Qed.

Lemma iterations_of_one r a :
  iterations_of [r] a = if N.eqb (agent_id r) a then [iteration r] else [].
Proof. unfold iterations_of. simpl. destruct (N.eqb (agent_id r) a); reflexivity. Qed.

Lemma has_key_In t a i :
  has_key t a i = true <-> In i (iterations_of t a).
Proof.
  unfold has_key, iterations_of. rewrite existsb_exists, in_map_iff. split.
  - intros (r & Hr & Hk). apply andb_true_iff in Hk. destruct Hk as [Ha Hi].
    exists r. split; [apply Z.eqb_eq; exact Hi|].
    apply filter_In. split; assumption.
  - intros (r & Hi & Hr). apply filter_In in Hr. destruct Hr as [Hr Ha].
    exists r. split; [exact Hr|]. rewrite Ha. simpl.
    apply Z.eqb_eq. exact Hi.
Qed.

Lemma has_key_not_In t a i :
  has_key t a i = false <-> ~ In i (iterations_of t a).
Proof.
  rewrite <- has_key_In. destruct (has_key t a i); split; intro H;
    try discriminate; try reflexivity; try (intro; discriminate).
  exfalso; apply H; reflexivity.
Qed.

(** *** One insert *)

Lemma insert_grows db n db' res :
  insert db n = (db', res) ->
  agents db' = agents db /\
  ((db' = db /\ exists e, res = Err e) \/
   (exists r, res = Ok r /\ db' = store_row db r /\
              new_agent_id n = Some (agent_id r) /\
              has_key (agent_loops db) (agent_id r) (iteration r) = false /\
              agent_exists (agents db) (agent_id r) = true)).
Proof.
  unfold insert. destruct (before_insert db n) as [n'|e] eqn:Hb.
  - unfold complete_insert, check_constraints.
    assert (Ha : new_agent_id n' = new_agent_id n).
    { unfold before_insert, next_iteration in Hb.
      destruct (new_iteration n) as [i|].
      - destruct (int4 i); [|discriminate]. injection Hb as <-. reflexivity.
      - destruct (coalesce_max_plus_1 _); [|discriminate].
        injection Hb as <-. reflexivity. }
    destruct (new_agent_id n') as [a|] eqn:Ea.
    2:{ intros H; injection H as <- <-. split; [reflexivity|].
        left; split; [reflexivity|eexists; reflexivity]. }
    destruct (new_iteration n') as [i|].
    2:{ intros H; injection H as <- <-. split; [reflexivity|].
        left; split; [reflexivity|eexists; reflexivity]. }
    destruct (has_key (agent_loops db) a i) eqn:Hk.
    { intros H; injection H as <- <-. split; [reflexivity|].
      left; split; [reflexivity|eexists; reflexivity]. }
    destruct (agent_exists (agents db) a) eqn:He.
    + intros H; injection H as <- <-. split; [reflexivity|]. right.
      eexists; split; [reflexivity|]. simpl. rewrite Ha. auto.
    + intros H; injection H as <- <-. split; [reflexivity|].
      left; split; [reflexivity|eexists; reflexivity].
  - intros H; injection H as <- <-. split; [reflexivity|].
    left; split; [reflexivity|eexists; reflexivity].
Qed.

Lemma insert_all_grows ns : forall db,
  agents (fst (insert_all db ns)) = agents db /\
  exists rows, agent_loops (fst (insert_all db ns)) = agent_loops db ++ rows.
Proof.
  induction ns as [|n ns IH]; intros db; simpl.
  - split; [reflexivity|]. exists []. rewrite app_nil_r. reflexivity.
  - destruct (insert db n) as [db1 r] eqn:E1.
    destruct (insert_all db1 ns) as [db2 rs] eqn:E2.
    specialize (IH db1). rewrite E2 in IH. simpl in *.
    destruct IH as [IHa [rows IHr]].
    destruct (insert_grows _ _ _ _ E1) as [Ha [[-> _]|(x & _ & -> & _)]].
    + split; [exact IHa|]. exists rows. exact IHr.
    + split; [exact IHa|]. exists (x :: rows). rewrite IHr. simpl.
      rewrite <- app_assoc. reflexivity.
Qed.

(** The trigger's value is free: every stored iteration of the agent is at
    most the maximum. *)
Lemma next_free_unused t a : has_key t a (next_free t a) = false.
Proof.
  apply has_key_not_In. unfold next_free. intros Hin.
  destruct (sql_max (iterations_of t a)) as [m|] eqn:E.
  - apply sql_max_Some in E. destruct E as [_ Hle].
    specialize (Hle _ Hin). lia.
  - apply sql_max_None in E. rewrite E in Hin. destruct Hin.
Qed.

Lemma before_insert_cycle db a p e :
  next_free (agent_loops db) a <= INT_MAX ->
  before_insert db (cycle a p e)
  = Ok (append a (next_free (agent_loops db) a) p e).
Proof.
  intros Hmax. unfold before_insert, next_iteration, next_free in *. simpl.
  destruct (sql_max (iterations_of (agent_loops db) a)) as [m|]; simpl.
  - destruct (Z.leb_spec (m + 1) INT_MAX); [reflexivity|lia].
  - reflexivity.
Qed.

Lemma insert_cycle_ok db a p e :
  agent_exists (agents db) a = true ->
  next_free (agent_loops db) a <= INT_MAX ->
  let r := {| agent_id := a; iteration := next_free (agent_loops db) a;
              plan_result := p; execution_result := e |} in
  insert db (cycle a p e) = (store_row db r, Ok r).
Proof.
  intros Hex Hmax r. unfold insert. rewrite before_insert_cycle by exact Hmax.
  unfold complete_insert, check_constraints. simpl.
  rewrite next_free_unused, Hex. reflexivity.
Qed.

Lemma iterations_of_store db r a :
  iterations_of (agent_loops (store_row db r)) a
  = iterations_of (agent_loops db) a
    ++ (if N.eqb (agent_id r) a then [iteration r] else []).
Proof. simpl. rewrite iterations_of_app, iterations_of_one. reflexivity. Qed.

(** *** History *)

Lemma insert_sorted_head z l :
  (forall x, In x l -> z <= x) -> insert_sorted z l = z :: l.
Proof.
  destruct l as [|y l]; intros H; simpl; [reflexivity|].
  destruct (Z.leb_spec z y); [reflexivity|].
  specialize (H y (or_introl eq_refl)). lia.
Qed.

Lemma sort_Zseq n : forall z, fold_right insert_sorted [] (Zseq z n) = Zseq z n.
Proof.
  induction n as [|n IH]; intros z; simpl; [reflexivity|].
  rewrite IH. apply insert_sorted_head.
  intros x Hx. apply Zseq_In in Hx. lia.
Qed.

Lemma sequential_cycles_from payloads : forall db a M,
  agent_exists (agents db) a = true ->
  iterations_of (agent_loops db) a = Zseq 1 M ->
  Z.of_nat M + Z.of_nat (length payloads) <= INT_MAX ->
  map ok_iteration (snd (insert_all db (cycles a payloads)))
  = map Some (Zseq (1 + Z.of_nat M) (length payloads)) /\
  iterations_of (agent_loops (fst (insert_all db (cycles a payloads)))) a
  = Zseq 1 (M + length payloads).
Proof.
  induction payloads as [|[p e] ps IH]; intros db a M Hex Hit Hmax.
  - simpl. rewrite Nat.add_0_r. auto.
  - cbn [cycles map fst snd insert_all length] in *.
    assert (Hnf : next_free (agent_loops db) a = 1 + Z.of_nat M).
    { unfold next_free. rewrite Hit. destruct M as [|M]; [reflexivity|].
      rewrite sql_max_Zseq. lia. }
    rewrite insert_cycle_ok by (try assumption; lia).
    rewrite Hnf.
    set (r := {| agent_id := a; iteration := 1 + Z.of_nat M;
                 plan_result := p; execution_result := e |}).
    specialize (IH (store_row db r) a (S M)).
    fold (cycles a ps) in *.
    destruct (insert_all (store_row db r) (cycles a ps)) as [db2 rs] eqn:E2.
    simpl fst in *; simpl snd in *.
    destruct IH as [IH1 IH2].
    + exact Hex.
    + rewrite iterations_of_store, Hit. subst r; cbn [agent_id iteration].
      rewrite N.eqb_refl, Zseq_snoc. reflexivity.
    + lia.
    + split.
      * cbn [map ok_iteration Zseq]. subst r; cbn [iteration]. f_equal.
        rewrite IH1. do 2 f_equal. lia.
      * rewrite IH2. f_equal. lia.
Qed.

(** C3. For any agent that is registered and has no loop record yet, and any
    list of [N] plan/execution payloads ([N] within the [INTEGER] range),
    inserting them one after the other with the iteration left [NULL]
    succeeds every time, the calls receive the iterations [1 .. N] in call
    order, and afterwards the agent's history is exactly [1; 2; ...; N],
    ascending and without gaps. *)
Theorem sequential_cycles_history db a payloads :
  agent_exists (agents db) a = true ->
  iterations_of (agent_loops db) a = [] ->
  Z.of_nat (length payloads) <= INT_MAX ->
  map ok_iteration (snd (insert_all db (cycles a payloads)))
  = map Some (Zseq 1 (length payloads)) /\
  History (agent_loops (fst (insert_all db (cycles a payloads)))) a
  = Zseq 1 (length payloads).
Proof.
  intros Hex Hit Hmax.
  destruct (sequential_cycles_from payloads db a 0 Hex Hit) as [H1 H2].
  - simpl. exact Hmax.
  - split; [exact H1|]. unfold History. rewrite H2. simpl. apply sort_Zseq.
Qed.

Lemma sequential_cycles_history_witness :
  map ok_iteration (snd (insert_all db_A1 (cycles 1%N two_calls)))
  = [Some 1; Some 2] /\
  History (agent_loops (fst (insert_all db_A1 (cycles 1%N two_calls)))) 1%N
  = [1; 2].
Proof.
  apply (sequential_cycles_history db_A1 1%N two_calls).
  - reflexivity.
  - reflexivity.
  - vm_compute. discriminate.
Defined.

(** *** Appends with a supplied iteration *)

Lemma existsb_false_find {A} (f : A -> bool) l :
  existsb f l = false -> find f l = None.
Proof.
  induction l as [|x l IH]; simpl; [reflexivity|].
  destruct (f x); simpl; [discriminate|exact IH].
Qed.

Lemma find_app_found {A} (f : A -> bool) l1 l2 x :
  find f l1 = Some x -> find f (l1 ++ l2) = Some x.
Proof.
  induction l1 as [|y l1 IH]; simpl; [discriminate|].
  destruct (f y); [auto|exact IH].
Qed.

Lemma find_app_missed {A} (f : A -> bool) l1 l2 :
  find f l1 = None -> find f (l1 ++ l2) = find f l2.
Proof.
  induction l1 as [|y l1 IH]; simpl; [reflexivity|].
  destruct (f y); [discriminate|exact IH].
Qed.

Lemma insert_append_inv db a i p e db1 r :
  insert db (append a i p e) = (db1, Ok r) ->
  int4 i = true /\
  has_key (agent_loops db) a i = false /\
  agent_exists (agents db) a = true /\
  r = {| agent_id := a; iteration := i;
         plan_result := p; execution_result := e |} /\
  db1 = store_row db r.
Proof.
  unfold insert, before_insert, next_iteration. cbn [append new_iteration].
  destruct (int4 i); [|intros H; discriminate H].
  unfold complete_insert, check_constraints.
  cbn [append new_agent_id new_iteration new_plan_result new_execution_result].
  destruct (has_key (agent_loops db) a i); [intros H; discriminate H|].
  destruct (agent_exists (agents db) a); [|intros H; discriminate H].
  intros H. injection H as <- <-. repeat split; reflexivity.
Qed.

(** C4. Once an insert of [(agent_id, iteration, plan, execution)] with a
    supplied iteration has succeeded, then after any further inserts every
    insert with the same [(agent_id, iteration)] fails with the duplicate-key
    error [unique_violation], leaves the database as it was, and the record
    stored under the key still carries the original [plan_result] and
    [execution_result]. *)
Theorem duplicate_append_rejected db a i p e db1 r ns p' e' :
  insert db (append a i p e) = (db1, Ok r) ->
  insert (fst (insert_all db1 ns)) (append a i p' e')
  = (fst (insert_all db1 ns), Err unique_violation) /\
  get (agent_loops (fst (insert_all db1 ns))) a i = Some r /\
  plan_result r = p /\ execution_result r = e.
Proof.
  intros H. apply insert_append_inv in H.
  destruct H as (Hi & Hk & _ & Hr & ->).
  destruct (insert_all_grows ns (store_row db r)) as [_ [rows Hrows]].
  set (db2 := fst (insert_all (store_row db r) ns)) in *.
  assert (Hget : get (agent_loops db2) a i = Some r).
  { unfold get. rewrite Hrows. apply find_app_found. simpl.
    unfold has_key in Hk.
    rewrite (find_app_missed _ _ _ (existsb_false_find _ _ Hk)). simpl.
    rewrite Hr; simpl. rewrite N.eqb_refl, Z.eqb_refl. reflexivity. }
  split; [|split; [exact Hget|rewrite Hr; split; reflexivity]].
  unfold insert, before_insert, next_iteration. cbn [append new_iteration].
  rewrite Hi. unfold complete_insert, check_constraints.
  cbn [append new_agent_id new_iteration].
  replace (has_key (agent_loops db2) a i) with true; [reflexivity|].
  symmetry. unfold has_key. apply existsb_exists. exists r. split.
  - unfold get in Hget. apply find_some in Hget. apply Hget.
  - rewrite Hr; simpl. rewrite N.eqb_refl, Z.eqb_refl. reflexivity.
Qed.

Lemma duplicate_append_rejected_witness :
  insert (fst (insert_all (fst (insert db_A1 (append 1%N 1 None None)))
                          (cycles 1%N two_calls)))
         (append 1%N 1 (Some "again"%string) None)
  = (fst (insert_all (fst (insert db_A1 (append 1%N 1 None None)))
                     (cycles 1%N two_calls)),
     Err unique_violation).
Proof.
  apply (duplicate_append_rejected db_A1 1%N 1 None None
           (fst (insert db_A1 (append 1%N 1 None None)))
           {| agent_id := 1%N; iteration := 1;
              plan_result := None; execution_result := None |}
           (cycles 1%N two_calls) (Some "again"%string) None).
  reflexivity.
Defined.

(** *** Unknown agents *)

Lemma unknown_agent_no_rows db a :
  referential_integrity db = true ->
  agent_exists (agents db) a = false ->
  iterations_of (agent_loops db) a = [].
Proof.
  unfold referential_integrity, iterations_of. intros Hri Hun.
  rewrite forallb_forall in Hri.
  replace (filter (fun r => N.eqb (agent_id r) a) (agent_loops db))
    with (@nil agent_loop); [reflexivity|].
  symmetry. induction (agent_loops db) as [|r t IH]; simpl; [reflexivity|].
  destruct (N.eqb_spec (agent_id r) a) as [Heq|Hne].
  - specialize (Hri r (or_introl eq_refl)). rewrite Heq, Hun in Hri.
    discriminate.
  - apply IH. intros x Hx. apply Hri. right. exact Hx.
Qed.

(** C5. On a database whose loop records all refer to registered agents, an
    insert for an [agent_id] that is not in [agents] fails with the
    foreign-key error and stores nothing: the database is returned as it
    was. This holds whether the iteration is left [NULL] or supplied (as an
    [INTEGER]). *)
Theorem unknown_agent_rejected db n a :
  referential_integrity db = true ->
  new_agent_id n = Some a ->
  agent_exists (agents db) a = false ->
  (forall i, new_iteration n = Some i -> int4 i = true) ->
  insert db n = (db, Err foreign_key_violation).
Proof.
  intros Hri Ha Hun Hty.
  pose proof (unknown_agent_no_rows db a Hri Hun) as Hnone.
  assert (Hk : forall i, has_key (agent_loops db) a i = false).
  { intros i. apply has_key_not_In. rewrite Hnone. intros []. }
  unfold insert, before_insert, next_iteration.
  destruct (new_iteration n) as [i|] eqn:Ei.
  - rewrite (Hty i eq_refl). unfold complete_insert, check_constraints.
    rewrite Ha, Ei, Hk, Hun. reflexivity.
  - rewrite Ha. simpl. rewrite Hnone. simpl.
    unfold complete_insert, check_constraints. simpl.
    rewrite Ha, Hk, Hun. reflexivity.
Qed.

Lemma unknown_agent_rejected_witness :
  insert db_A1 (cycle 2%N (Some "plan"%string) None)
  = (db_A1, Err foreign_key_violation).
Proof.
  apply (unknown_agent_rejected db_A1 _ 2%N).
  - reflexivity.
  - reflexivity.
  - reflexivity.
  - intros i H. discriminate H.
Defined.

Lemma referential_integrity_insert db n :
  referential_integrity db = true ->
  referential_integrity (fst (insert db n)) = true.
Proof.
  intros Hri. destruct (insert db n) as [db' res] eqn:E.
  destruct (insert_grows _ _ _ _ E) as [Ha [[-> _]|(r & _ & -> & _ & _ & Hex)]].
  - exact Hri.
  - unfold referential_integrity in *. simpl.
    rewrite forallb_app, Hri. simpl. rewrite Hex. reflexivity.
Qed.

(** *** Supplied iterations and gaps *)

Lemma contiguous_bounds l N i :
  Permutation l (Zseq 1 N) -> In i l -> 1 <= i <= Z.of_nat N.
Proof.
  intros HP Hin. apply (Permutation_in _ HP) in Hin.
  apply Zseq_In in Hin. lia.
Qed.

Lemma contiguous_size l N :
  Permutation l (Zseq 1 N) -> N = length l.
Proof.
  intros HP. apply Permutation_length in HP. rewrite Zseq_length in HP. auto.
Qed.

(** What the invariant says of one agent: no duplicates, and the values
    are those from 1 to the number of records. *)
Lemma contiguous_from_1_spec t a :
  contiguous_from_1 t a ->
  NoDup (iterations_of t a) /\
  forall i, In i (iterations_of t a)
            <-> 1 <= i <= Z.of_nat (length (iterations_of t a)).
Proof.
  intros [N HN]. split.
  - apply (Permutation_NoDup (Permutation_sym HN)). apply Zseq_NoDup.
  - intros i. rewrite <- (contiguous_size _ _ HN). split.
    + apply contiguous_bounds. exact HN.
    + intros Hi. apply (Permutation_in _ (Permutation_sym HN)).
      apply Zseq_In. lia.
Qed.

(** C6. For an insert that supplies an iteration, the trigger returns [NEW]
    as it is. When the value is an [INTEGER] and the agent is registered, the
    insert is decided by the primary key alone: it fails with
    [unique_violation] when [(agent_id, iteration)] is stored already, and
    otherwise stores the row with exactly the supplied iteration. If the
    agent's iterations were [1 .. N] and the supplied one is neither among
    them nor [N + 1], the iterations stored afterwards are not of the form
    [1 .. M]: the insert has made a gap. *)
Theorem explicit_iteration_kept db a i p e :
  next_iteration (agent_loops db) (append a i p e) = Ok (append a i p e) /\
  (int4 i = true -> agent_exists (agents db) a = true ->
   insert db (append a i p e)
   = if has_key (agent_loops db) a i then (db, Err unique_violation)
     else let r := {| agent_id := a; iteration := i;
                      plan_result := p; execution_result := e |} in
          (store_row db r, Ok r)) /\
  (forall N, int4 i = true -> agent_exists (agents db) a = true ->
   Permutation (iterations_of (agent_loops db) a) (Zseq 1 N) ->
   i < 1 \/ Z.of_nat N + 1 < i ->
   ~ contiguous_from_1 (agent_loops (fst (insert db (append a i p e)))) a).
Proof.
  assert (Hins : int4 i = true -> agent_exists (agents db) a = true ->
    insert db (append a i p e)
    = if has_key (agent_loops db) a i then (db, Err unique_violation)
      else let r := {| agent_id := a; iteration := i;
                       plan_result := p; execution_result := e |} in
           (store_row db r, Ok r)).
  { intros Hi Hex. unfold insert, before_insert, next_iteration.
    cbn [append new_iteration]. rewrite Hi.
    unfold complete_insert, check_constraints.
    cbn [append new_agent_id new_iteration new_plan_result
         new_execution_result].
    destruct (has_key (agent_loops db) a i); [reflexivity|].
    rewrite Hex. reflexivity. }
  split; [reflexivity|]. split; [exact Hins|].
  intros N Hi Hex HP Hout [M HM].
  rewrite (Hins Hi Hex) in HM.
  assert (Hk : has_key (agent_loops db) a i = false).
  { apply has_key_not_In. intros Hin.
    pose proof (contiguous_bounds _ _ _ HP Hin). lia. }
  rewrite Hk in HM. cbn [fst] in HM.
  rewrite iterations_of_store in HM. cbn [agent_id iteration] in HM.
  rewrite N.eqb_refl in HM.
  pose proof (contiguous_size _ _ HP) as HN.
  pose proof (contiguous_size _ _ HM) as HMlen.
  rewrite length_app in HMlen. simpl in HMlen.
  assert (Hin : In i (iterations_of (agent_loops db) a ++ [i])).
  { apply in_or_app. right. left. reflexivity. }
  pose proof (contiguous_bounds _ _ _ HM Hin). lia.
Qed.

Lemma explicit_iteration_kept_witness :
  insert db_A1 (append 1%N 5 None None)
  = (store_row db_A1 {| agent_id := 1%N; iteration := 5;
                        plan_result := None; execution_result := None |},
     Ok {| agent_id := 1%N; iteration := 5;
           plan_result := None; execution_result := None |}) /\
  ~ contiguous_from_1
      (agent_loops (fst (insert db_A1 (append 1%N 5 None None)))) 1%N.
Proof.
  destruct (explicit_iteration_kept db_A1 1%N 5 None None) as (_ & H2 & H3).
  split.
  - apply H2; reflexivity.
  - apply (H3 0%nat).
    + reflexivity.
    + reflexivity.
    + simpl. apply perm_nil.
    + right. simpl. lia.
Defined.

(** The invariant is one of the write path, whose inserts leave the
    iteration to the trigger. A statement that supplies the iteration is
    outside it: on the ledger with one registered agent and no record, the
    single insert [(agent 1, iteration 5)] succeeds and leaves the agent
    with the iterations [{5}], which is not [{1, ..., N}] for any [N]. *)
Lemma explicit_insert_breaks_ledger_invariant :
  ledger_invariant (agent_loops db_A1) /\
  snd (insert_all db_A1 [append 1%N 5 None None])
  = [Ok {| agent_id := 1%N; iteration := 5;
           plan_result := None; execution_result := None |}] /\
  ~ ledger_invariant
      (agent_loops (fst (insert_all db_A1 [append 1%N 5 None None]))).
Proof.
  split; [|split].
  - intros a. exists 0%nat. simpl. apply perm_nil.
  - reflexivity.
  - intros H. destruct (H 1%N) as [N HN].
    change (iterations_of _ 1%N) with [5] in HN.
    pose proof (contiguous_size _ _ HN) as Hlen. simpl in Hlen. subst N.
    assert (Hin : In 5 [5]) by (left; reflexivity).
    pose proof (contiguous_bounds _ _ _ HN Hin). simpl in *. lia.
Qed.

(** *** Interleaved calls keep the ledger invariant *)

Lemma Forall_replace_nth (P : call -> Prop) c : forall cs i,
  Forall P cs -> P c -> Forall P (replace_nth i c cs).
Proof.
  induction cs as [|c0 cs IH]; intros i Hcs Hc; simpl; [constructor|].
  inversion Hcs; subst. destruct i; constructor; auto.
Qed.

Lemma replace_nth_length c : forall cs i,
  length (replace_nth i c cs) = length cs.
Proof.
  induction cs as [|c0 cs IH]; intros i; simpl; [reflexivity|].
  destruct i; simpl; auto.
Qed.

Lemma nth_error_Forall (P : call -> Prop) cs i c :
  Forall P cs -> nth_error cs i = Some c -> P c.
Proof.
  intros H Hn. rewrite Forall_forall in H. apply H.
  eapply nth_error_In; eauto.
Qed.

Lemma sql_max_contiguous l N :
  Permutation l (Zseq 1 N) ->
  match sql_max l with Some m => m + 1 | None => 1 end = Z.of_nat N + 1.
Proof.
  intros HP. rewrite (sql_max_Permutation _ _ HP).
  destruct N as [|N]; [reflexivity|]. rewrite sql_max_Zseq. lia.
Qed.

Lemma call_in_range_grows t r c :
  call_in_range t c -> call_in_range (t ++ [r]) c.
Proof.
  destruct c as [n|n|res]; simpl; auto.
  intros (v & Hv & Hb). exists v. split; [exact Hv|].
  intros a Ha. specialize (Hb a Ha).
  rewrite iterations_of_app, length_app. lia.
Qed.

Lemma contiguous_extend l N v :
  Permutation l (Zseq 1 N) -> ~ In v l -> 1 <= v <= Z.of_nat N + 1 ->
  Permutation (l ++ [v]) (Zseq 1 (S N)).
Proof.
  intros HP Hnin Hv.
  assert (v = 1 + Z.of_nat N) as ->.
  { destruct (Z.eq_dec v (1 + Z.of_nat N)) as [|Hne]; [assumption|].
    exfalso. apply Hnin. apply (Permutation_in _ (Permutation_sym HP)).
    apply Zseq_In. lia. }
  rewrite Zseq_snoc. apply Permutation_app_tail. exact HP.
Qed.

Lemma step_pool_invariant cfg i :
  pool_invariant cfg -> pool_invariant (step cfg i).
Proof.
  intros [Hinv Hcalls]. unfold step.
  destruct (nth_error (calls cfg) i) as [c|] eqn:Hn; [|split; assumption].
  pose proof (nth_error_Forall _ _ _ _ Hcalls Hn) as Hc.
  destruct c as [n|n|res]; simpl in Hc |- *.
  - (* the trigger fires *)
    unfold before_insert, next_iteration. rewrite Hc.
    destruct (coalesce_max_plus_1 _) as [v|e] eqn:Hv; simpl.
    + split; [exact Hinv|]. apply Forall_replace_nth; [exact Hcalls|].
      simpl. exists v. split; [reflexivity|]. intros a Ha.
      rewrite Ha in Hv. simpl in Hv. destruct (Hinv a) as [N HN].
      pose proof (sql_max_contiguous _ _ HN) as Hmax.
      rewrite (contiguous_size _ _ HN) in Hmax.
      unfold coalesce_max_plus_1 in Hv.
      destruct (sql_max (iterations_of (agent_loops (store cfg)) a)) as [m|].
      * destruct (m + 1 <=? INT_MAX); [|discriminate].
        injection Hv as <-. lia.
      * injection Hv as <-. lia.
    + split; [exact Hinv|]. apply Forall_replace_nth; simpl; auto.
  - (* the row is checked and stored *)
    destruct Hc as (v & Hv & Hb).
    unfold complete_insert, check_constraints. rewrite Hv.
    destruct (new_agent_id n) as [a|] eqn:Ha;
      [|split; [exact Hinv|apply Forall_replace_nth; simpl; auto]].
    destruct (has_key (agent_loops (store cfg)) a v) eqn:Hk;
      [split; [exact Hinv|apply Forall_replace_nth; simpl; auto]|].
    destruct (agent_exists (agents (store cfg)) a);
      [|split; [exact Hinv|apply Forall_replace_nth; simpl; auto]].
    cbn [store calls agent_loops agents store_row]. split.
    + intros a'. unfold contiguous_from_1.
      cbn [store calls agent_loops agents store_row].
      rewrite iterations_of_app, iterations_of_one. cbn [agent_id iteration].
      destruct (Hinv a') as [N HN].
      destruct (N.eqb_spec a a') as [<-|Hne].
      * exists (S N). apply contiguous_extend; [exact HN| |].
        -- apply has_key_not_In. exact Hk.
        -- rewrite (contiguous_size _ _ HN). apply Hb. reflexivity.
      * exists N. rewrite app_nil_r. exact HN.
    + apply Forall_replace_nth; simpl; auto.
      eapply Forall_impl; [|exact Hcalls].
      intros c. apply call_in_range_grows.
  - split; [exact Hinv|]. apply Forall_replace_nth; simpl; auto.
Qed.

Lemma run_pool_invariant sched : forall cfg,
  pool_invariant cfg -> pool_invariant (run sched cfg).
Proof.
  induction sched as [|i sched IH]; intros cfg H; simpl; [exact H|].
  apply IH. apply step_pool_invariant. exact H.
Qed.

Lemma leaves_iteration_null_in_range t cs :
  forallb leaves_iteration_null cs = true -> Forall (call_in_range t) cs.
Proof.
  intros H. rewrite forallb_forall in H. apply Forall_forall.
  intros c Hc. specialize (H c Hc). destruct c as [n| |]; simpl in *;
    try discriminate. destruct (new_iteration n); [discriminate|reflexivity].
Qed.

(** An insert run on its own is the two steps of a lone caller. *)
Lemma insert_as_run db n :
  store (run [0%nat; 0%nat] {| store := db; calls := [Calling n] |})
  = fst (insert db n).
Proof.
  unfold run, insert. simpl. unfold step at 2. simpl.
  destruct (before_insert db n) as [n'|e]; simpl.
  - unfold step. simpl. destruct (complete_insert db n'). reflexivity.
  - reflexivity.
Qed.

Lemma insert_keeps_invariant db n :
  ledger_invariant (agent_loops db) -> new_iteration n = None ->
  ledger_invariant (agent_loops (fst (insert db n))).
Proof.
  intros Hinv Hn. rewrite <- insert_as_run.
  apply (run_pool_invariant [0%nat; 0%nat]
           {| store := db; calls := [Calling n] |}).
  split; [exact Hinv|]. constructor; [exact Hn|constructor].
Qed.

Lemma insert_all_keeps_invariant ns : forall db,
  ledger_invariant (agent_loops db) ->
  Forall (fun n => new_iteration n = None) ns ->
  ledger_invariant (agent_loops (fst (insert_all db ns))).
Proof.
  induction ns as [|n ns IH]; intros db Hinv Hns; simpl; [exact Hinv|].
  inversion Hns as [|? ? Hn Hns']; subst.
  pose proof (insert_keeps_invariant db n Hinv Hn) as H1.
  destruct (insert db n) as [db1 r]. simpl in H1.
  specialize (IH db1 H1 Hns').
  destruct (insert_all db1 ns) as [db2 rs]. exact IH.
Qed.

(** C1. The write path is the insert that leaves the iteration [NULL], so
    that the trigger [next_iteration] assigns it. Take a ledger in which
    every agent's iterations are exactly [1 .. N] for some [N >= 0], each
    once (the empty ledger is one), and any pool of callers writing through
    that path. After any interleaving of the callers' steps, however many
    of them write for the same agent, every agent's iterations are again
    exactly [1 .. N'] for some [N'], each once: a call that raced for a
    value loses on the primary key and stores nothing. The same holds after
    any sequence of such inserts run one after the other. *)
Theorem null_iteration_inserts_keep_invariant cfg sched :
  ledger_invariant (agent_loops (store cfg)) ->
  forallb leaves_iteration_null (calls cfg) = true ->
  ledger_invariant (agent_loops (store (run sched cfg))) /\
  (forall ns, Forall (fun n => new_iteration n = None) ns ->
     ledger_invariant (agent_loops (fst (insert_all (store cfg) ns)))).
Proof.
  intros Hinv Hnull. split.
  - apply (run_pool_invariant sched cfg). split; [exact Hinv|].
    apply leaves_iteration_null_in_range. exact Hnull.
  - intros ns Hns. apply insert_all_keeps_invariant; assumption.
Qed.

Lemma null_iteration_inserts_keep_invariant_witness :
  ledger_invariant
    (agent_loops
       (store (run [0%nat; 1%nat; 0%nat; 1%nat] (spawn db_A1 1%N two_calls)))).
Proof.
  apply (null_iteration_inserts_keep_invariant (spawn db_A1 1%N two_calls)).
  - intros a. exists 0%nat. simpl. apply perm_nil.
  - reflexivity.
Defined.

(** *** Calls racing for one agent *)

(** C2, as stated, fails: two callers for agent 1 on the empty ledger, with
    both triggers firing before either row is stored, finish with one
    iteration assigned and one duplicate-key error, not two iterations. *)
Lemma racing_calls_collide :
  all_finished (run [0%nat; 1%nat; 0%nat; 1%nat] (spawn db_A1 1%N two_calls))
  = true /\
  assigned (calls (run [0%nat; 1%nat; 0%nat; 1%nat]
                       (spawn db_A1 1%N two_calls))) = [1] /\
  failures (calls (run [0%nat; 1%nat; 0%nat; 1%nat]
                       (spawn db_A1 1%N two_calls))) = [unique_violation] /\
  ~ all_distinct_contiguous (next_free (agent_loops db_A1) 1%N)
      (run [0%nat; 1%nat; 0%nat; 1%nat] (spawn db_A1 1%N two_calls)).
Proof.
  repeat split; try reflexivity.
  unfold all_distinct_contiguous. intros H.
  apply Permutation_length in H. vm_compute in H. discriminate H.
Qed.

Lemma assigned_length cs : (length (assigned cs) <= length cs)%nat.
Proof.
  induction cs as [|c cs IH]; simpl; [lia|].
  destruct c as [n|n|[r|e]]; simpl; lia.
Qed.

Lemma assigned_length_unfinished cs : forall i c,
  nth_error cs i = Some c -> is_finished c = false ->
  (length (assigned cs) < length cs)%nat.
Proof.
  induction cs as [|c0 cs IH]; intros [|i] c Hn Hc; simpl in *;
    try discriminate.
  - injection Hn as ->. pose proof (assigned_length cs).
    destruct c as [n|n|r]; simpl in *; try discriminate; lia.
  - specialize (IH _ _ Hn Hc). destruct c0 as [n|n|[r|e]]; simpl; lia.
Qed.

Lemma assigned_replace_unassigned c' : forall cs i c,
  nth_error cs i = Some c -> assigned [c] = [] -> assigned [c'] = [] ->
  assigned (replace_nth i c' cs) = assigned cs.
Proof.
  induction cs as [|c0 cs IH]; intros [|i] c Hn Hc Hc'; simpl in *;
    try reflexivity.
  - injection Hn as ->.
    destruct c as [n|n|[r|e]]; destruct c' as [n'|n'|[r'|e']];
      simpl in *; try discriminate; reflexivity.
  - rewrite (IH _ _ Hn Hc Hc'). reflexivity.
Qed.

Lemma assigned_replace_ok r : forall cs i c,
  nth_error cs i = Some c -> assigned [c] = [] ->
  Permutation (assigned (replace_nth i (Finished (Ok r)) cs))
              (iteration r :: assigned cs).
Proof.
  induction cs as [|c0 cs IH]; intros [|i] c Hn Hc; simpl in *;
    try discriminate.
  - injection Hn as ->.
    destruct c as [n|n|[r'|e]]; simpl in *; try discriminate; reflexivity.
  - specialize (IH _ _ Hn Hc).
    destruct c0 as [n|n|[r'|e]]; simpl; try exact IH.
    rewrite IH. apply perm_swap.
Qed.

Lemma replace_nth_same : forall cs i c,
  nth_error cs i = Some c -> replace_nth i c cs = cs.
Proof.
  induction cs as [|c0 cs IH]; intros [|i] c Hn; simpl in *;
    try discriminate.
  - injection Hn as ->. reflexivity.
  - rewrite (IH _ _ Hn). reflexivity.
Qed.

Lemma iterations_of_own rows a :
  Forall (fun r => agent_id r = a) rows ->
  iterations_of rows a = map iteration rows.
Proof.
  unfold iterations_of. induction 1 as [|r rows Hr _ IH]; simpl.
  - reflexivity.
  - rewrite Hr, N.eqb_refl. simpl. f_equal. exact IH.
Qed.

Lemma call_racing_grows a first M c :
  call_racing a first M c -> call_racing a first (S M) c.
Proof.
  destruct c as [n|n|[r|e]]; simpl; auto.
  - intros (v & p & e & Hn & Hv). exists v, p, e. split; [exact Hn|lia].
  - intros [[He HM]|[He HM]]; [left|right]; (split; [exact He|lia]).
Qed.

Lemma before_insert_cycle_overflow db a p e :
  INT_MAX < next_free (agent_loops db) a ->
  before_insert db (cycle a p e) = Err numeric_value_out_of_range.
Proof.
  intros Hmax. unfold before_insert, next_iteration, next_free in *. simpl.
  destruct (sql_max (iterations_of (agent_loops db) a)) as [m|]; simpl.
  - destruct (Z.leb_spec (m + 1) INT_MAX); [lia|reflexivity].
  - unfold INT_MAX in Hmax. lia.
Qed.

Lemma race_next_free db0 a rows t :
  t = agent_loops db0 ++ rows ->
  Forall (fun r => agent_id r = a) rows ->
  map iteration rows = Zseq (next_free (agent_loops db0) a) (length rows) ->
  next_free t a = next_free (agent_loops db0) a + Z.of_nat (length rows).
Proof.
  intros -> Hown Hrows. unfold next_free at 1.
  rewrite iterations_of_app, (iterations_of_own _ _ Hown), Hrows.
  apply next_after_Zseq. reflexivity.
Qed.

Lemma step_race_invariant db0 a cfg i :
  agent_exists (agents db0) a = true ->
  race_invariant db0 a cfg -> race_invariant db0 a (step cfg i).
Proof.
  intros Hex (rows & Hag & Hrows & Hown & Hits & Hperm & Hcalls).
  set (first := next_free (agent_loops db0) a) in *.
  unfold step.
  destruct (nth_error (calls cfg) i) as [c|] eqn:Hn;
    [|exists rows; repeat split; assumption].
  pose proof (nth_error_Forall _ _ _ _ Hcalls Hn) as Hc.
  pose proof (race_next_free db0 a rows _ Hrows Hown Hits) as Hnext.
  fold first in Hnext.
  destruct c as [n|n|res]; cbn [advance].
  - (* the trigger reads the maximum *)
    destruct Hc as (p & e & ->).
    destruct (Z.le_gt_cases (first + Z.of_nat (length rows)) INT_MAX)
      as [Hle|Hgt].
    + rewrite before_insert_cycle by lia. rewrite Hnext.
      exists rows. cbn [store calls]. repeat split; try assumption.
      * rewrite (assigned_replace_unassigned _ _ _ _ Hn); auto.
      * apply Forall_replace_nth; [exact Hcalls|].
        simpl. exists (first + Z.of_nat (length rows)), p, e.
        split; [reflexivity|lia].
    + rewrite before_insert_cycle_overflow by lia.
      exists rows. cbn [store calls]. repeat split; try assumption.
      * rewrite (assigned_replace_unassigned _ _ _ _ Hn); auto.
      * apply Forall_replace_nth; [exact Hcalls|]. simpl.
        right. split; [reflexivity|exact Hgt].
  - (* the row meets the primary key *)
    destruct Hc as (v & p & e & -> & Hv).
    unfold complete_insert, check_constraints.
    cbn [append new_agent_id new_iteration new_plan_result
         new_execution_result].
    destruct (has_key (agent_loops (store cfg)) a v) eqn:Hk.
    + exists rows. cbn [store calls]. repeat split; try assumption.
      * rewrite (assigned_replace_unassigned _ _ _ _ Hn); auto.
      * apply Forall_replace_nth; [exact Hcalls|]. simpl.
        left. split; [reflexivity|].
        destruct rows as [|r0 rows0]; [|simpl; lia]. exfalso.
        simpl in Hv. assert (v = first) by lia. subst v.
        rewrite Hrows, app_nil_r in Hk. unfold first in Hk.
        rewrite next_free_unused in Hk. discriminate Hk.
    + assert (Hveq : v = first + Z.of_nat (length rows)).
      { destruct (Z.eq_dec v (first + Z.of_nat (length rows))) as [|Hne];
          [assumption|]. exfalso.
        apply has_key_not_In in Hk. apply Hk.
        rewrite Hrows, iterations_of_app, (iterations_of_own _ _ Hown), Hits.
        apply in_or_app. right. apply Zseq_In. lia. }
      rewrite Hag, Hex.
      set (r := {| agent_id := a; iteration := v;
                   plan_result := p; execution_result := e |}).
      exists (rows ++ [r]). cbn [store calls store_row agents agent_loops].
      rewrite length_app, Nat.add_comm. cbn [length Nat.add].
      repeat split.
      * exact Hag.
      * rewrite Hrows, app_assoc. reflexivity.
      * apply Forall_app. split; [exact Hown|]. constructor; [reflexivity|].
        constructor.
      * rewrite map_app, Hits, Zseq_snoc. simpl. rewrite Hveq. reflexivity.
      * rewrite (assigned_replace_ok r _ _ _ Hn) by reflexivity.
        rewrite Zseq_snoc. cbn [iteration r]. rewrite Hveq.
        rewrite <- Permutation_cons_append. apply perm_skip. exact Hperm.
      * apply Forall_replace_nth; [|exact I].
        eapply Forall_impl; [|exact Hcalls].
        intros c. apply call_racing_grows.
  - rewrite (replace_nth_same _ _ _ Hn).
    exists rows. repeat split; assumption.
Qed.

Lemma step_calls_length cfg i : length (calls (step cfg i)) = length (calls cfg).
Proof.
  unfold step. destruct (nth_error (calls cfg) i) as [c|]; [|reflexivity].
  destruct (advance (store cfg) c). simpl. apply replace_nth_length.
Qed.

Lemma run_calls_length sched : forall cfg,
  length (calls (run sched cfg)) = length (calls cfg).
Proof.
  induction sched as [|i sched IH]; intros cfg; simpl; [reflexivity|].
  rewrite IH. apply step_calls_length.
Qed.

Lemma run_race_invariant db0 a sched : forall cfg,
  agent_exists (agents db0) a = true ->
  race_invariant db0 a cfg -> race_invariant db0 a (run sched cfg).
Proof.
  induction sched as [|i sched IH]; intros cfg Hex H; simpl; [exact H|].
  apply IH; [exact Hex|]. apply step_race_invariant; assumption.
Qed.

Lemma spawn_race_invariant db a payloads :
  race_invariant db a (spawn db a payloads).
Proof.
  exists []. simpl. repeat split.
  - rewrite app_nil_r. reflexivity.
  - constructor.
  - induction payloads as [|pe ps IH]; simpl; [reflexivity|exact IH].
  - induction payloads as [|[p e] ps IH]; simpl; constructor; auto.
    simpl. exists p, e. reflexivity.
Qed.

Lemma failures_racing a first M cs :
  Forall (call_racing a first M) cs ->
  Forall (fun e => e = unique_violation \/
                   (e = numeric_value_out_of_range /\
                    INT_MAX < first + Z.of_nat M))
         (failures cs).
Proof.
  induction 1 as [|c cs Hc _ IH]; simpl; [constructor|].
  destruct c as [n|n|[r|e]]; auto. constructor; [|exact IH].
  destruct Hc as [[He _]|Hc]; [left; exact He|right; exact Hc].
Qed.

Lemma assigned_failures_length cs :
  (length (assigned cs) + length (failures cs) <= length cs)%nat.
Proof.
  induction cs as [|c cs IH]; simpl; [lia|].
  destruct c as [n|n|[r|e]]; simpl; lia.
Qed.

(** C2, amended. Spawn [K] callers that each record a cycle for the same
    registered agent. After any interleaving of their steps, the calls that
    succeeded hold distinct iterations that fill the range starting at the
    prior maximum plus one (1 when the agent had no record); there are at
    most [K] of them; the agent's stored iterations are the prior ones
    followed by that range; and every call that failed did so with the
    duplicate-key error or with [numeric_value_out_of_range], and stored
    nothing. When the first value of the range is an [INTEGER], at least
    one call has succeeded once every call of a non-empty pool has
    finished; when the [K] values of the range are, every failure is a
    duplicate-key error. *)
Theorem concurrent_cycles_contiguous db a payloads sched :
  agent_exists (agents db) a = true ->
  Permutation
    (assigned (calls (run sched (spawn db a payloads))))
    (Zseq (next_free (agent_loops db) a)
          (length (assigned (calls (run sched (spawn db a payloads)))))) /\
  (length (assigned (calls (run sched (spawn db a payloads))))
   <= length payloads)%nat /\
  Forall (fun e => e = unique_violation \/ e = numeric_value_out_of_range)
         (failures (calls (run sched (spawn db a payloads)))) /\
  iterations_of (agent_loops (store (run sched (spawn db a payloads)))) a
  = iterations_of (agent_loops db) a
    ++ Zseq (next_free (agent_loops db) a)
            (length (assigned (calls (run sched (spawn db a payloads))))) /\
  (next_free (agent_loops db) a <= INT_MAX ->
   all_finished (run sched (spawn db a payloads)) = true ->
   payloads <> [] ->
   assigned (calls (run sched (spawn db a payloads))) <> []) /\
  (next_free (agent_loops db) a + Z.of_nat (length payloads) - 1
     <= INT_MAX ->
   Forall (eq unique_violation)
          (failures (calls (run sched (spawn db a payloads))))).
Proof.
  intros Hex.
  assert (Hlen : length (calls (spawn db a payloads)) = length payloads).
  { unfold spawn, cycles. simpl. rewrite !length_map. reflexivity. }
  destruct (run_race_invariant db a sched (spawn db a payloads) Hex)
    as (rows & Hag & Hrows & Hown & Hits & Hperm & Hcalls).
  { apply spawn_race_invariant. }
  set (cfg' := run sched (spawn db a payloads)) in *.
  assert (HM : length (assigned (calls cfg')) = length rows).
  { rewrite (Permutation_length Hperm). apply Zseq_length. }
  assert (Hk : length (calls cfg') = length payloads).
  { unfold cfg'. rewrite run_calls_length. exact Hlen. }
  pose proof (failures_racing _ _ _ _ Hcalls) as Hfail.
  rewrite HM. repeat split.
  - exact Hperm.
  - rewrite <- HM. etransitivity; [apply assigned_length|]. lia.
  - eapply Forall_impl; [|exact Hfail]. intros e [He|[He _]]; auto.
  - rewrite Hrows, iterations_of_app, (iterations_of_own _ _ Hown), Hits.
    reflexivity.
  - intros Hfirst Hfin Hne Hnil.
    rewrite Hnil in HM. simpl in HM.
    destruct (calls cfg') as [|c cs] eqn:Ecs.
    + destruct payloads; [apply Hne; reflexivity|discriminate Hk].
    + unfold all_finished in Hfin. rewrite Ecs in Hfin. simpl in Hfin.
      apply andb_true_iff in Hfin. destruct Hfin as [Hc _].
      inversion Hcalls as [|? ? Hcr _]; subst.
      destruct c as [n|n|[r|e]]; simpl in *; try discriminate.
      destruct Hcr as [[_ Hpos]|[_ Hover]]; lia.
  - intros Hmax. pose proof (assigned_failures_length (calls cfg')) as Hsum.
    rewrite HM, Hk in Hsum.
    destruct (failures (calls cfg')) as [|e0 es] eqn:Ef; [constructor|].
    simpl in Hsum. eapply Forall_impl; [|exact Hfail].
    intros e [He|[_ Hover]]; [symmetry; exact He|lia].
Qed.

Lemma concurrent_cycles_contiguous_witness :
  Permutation
    (assigned (calls (run [0%nat; 1%nat; 0%nat; 1%nat]
                          (spawn db_A1 1%N two_calls))))
    (Zseq 1 1) /\
  iterations_of
    (agent_loops (store (run [0%nat; 1%nat; 0%nat; 1%nat]
                             (spawn db_A1 1%N two_calls)))) 1%N
  = [1] /\
  assigned (calls (run [0%nat; 1%nat; 0%nat; 1%nat]
                       (spawn db_A1 1%N two_calls))) <> [] /\
  Forall (eq unique_violation)
         (failures (calls (run [0%nat; 1%nat; 0%nat; 1%nat]
                               (spawn db_A1 1%N two_calls)))).
Proof.
  destruct (concurrent_cycles_contiguous db_A1 1%N two_calls
              [0%nat; 1%nat; 0%nat; 1%nat])
    as (H1 & _ & _ & H4 & H5 & H6).
  - reflexivity.
  - split; [exact H1|]. split; [exact H4|]. split.
    + apply H5.
      * vm_compute. discriminate.
      * reflexivity.
      * discriminate.
    + apply H6. vm_compute. discriminate.
Defined.

End LedgerFacts.

(* ===================================================================== *)
(** ** Properties of the route, the form and the metrics *)
(* ===================================================================== *)

Module WebFacts.
Import Json.
Local Open Scope string_scope.

(** *** The route *)

Section RouteFacts.
Import SubmitRoute.
Context {number : Type} (number_json : number -> value number).
Implicit Types (req : option (value number))
  (backend : value number -> fetch_result number).

Lemma property_not_null (v : value number) k :
  v <> JNull -> exists p, property v k = Returned p.
Proof.
  destruct v; intros H; simpl; try (eexists; reflexivity).
  exfalso; apply H; reflexivity.
Qed.

(** The response of a call in which nothing throws. *)
Lemma POST_returned req backend data st v :
  req = Some data ->
  backend (reserialised number_json data) = Reply st (Some v) ->
  v <> JNull ->
  exists sid dbg stt ttl,
    property v "sessionId" = Returned sid /\
    property v "debuggingUrl" = Returned dbg /\
    property v "status" = Returned stt /\
    property v "title" = Returned ttl /\
    POST number_json req backend
    = NextResponse_json number_json
        [("sessionId", sid); ("debuggingUrl", dbg);
         ("status", stt); ("title", ttl)] 200.
Proof.
  intros -> Hb Hv. unfold POST, try_block. cbn [await bind]. rewrite Hb.
  cbn [await bind].
  destruct v; try (exfalso; apply Hv; reflexivity); cbn [property bind];
    do 4 eexists; repeat split; reflexivity.
Qed.

Lemma POST_thrown req backend :
  throws number_json req backend = true ->
  POST number_json req backend
  = {| status := 500;
       body := JObject [("error", JString "Something went wrong")] |}.
Proof.
  unfold throws, POST, try_block. destruct req as [data|];
    cbn [await bind]; [|reflexivity].
  destruct (backend (reserialised number_json data)) as [|st [v|]];
    cbn [await bind]; try reflexivity.
  destruct v; cbn [property bind]; try reflexivity; discriminate.
Qed.

Lemma POST_not_thrown req backend :
  throws number_json req backend = false ->
  status (POST number_json req backend) = 200.
Proof.
  unfold throws. destruct req as [data|]; [|discriminate].
  destruct (backend (reserialised number_json data)) as [|st [v|]] eqn:Hb;
    try discriminate.
  intros Hv.
  destruct (POST_returned (Some data) backend data st v eq_refl Hb)
    as (sid & dbg & stt & ttl & _ & _ & _ & _ & ->).
  - intros ->. discriminate Hv.
  - reflexivity.
Qed.

End RouteFacts.

(** *** The form *)

Section FormFacts.
Import SubmitRoute FormComponent.
Context {number : Type} (number_is_zero : number -> bool)
  (number_json : number -> value number).
Implicit Types (st : state number) (o : fetch_result number)
  (backend : value number -> fetch_result number).

Lemma or_else_truthy (e : option (value number)) (s : string) :
  s <> "" ->
  truthy number_is_zero (or_else number_is_zero e (JString s)) = true.
Proof.
  intros Hs. unfold or_else.
  destruct (truthy number_is_zero e) eqn:He; [exact He|]. simpl.
  destruct (String.eqb_spec s ""); [contradiction|reflexivity].
Qed.

Lemma submit_settle_failed o st :
  request_failed o = true ->
  data (submit_settle number_is_zero o st) = data st /\
  submitted (submit_settle number_is_zero o st) = submitted st /\
  truthy number_is_zero (error (submit_settle number_is_zero o st)) = true.
Proof.
  unfold request_failed, submit_settle, submit_try.
  destruct o as [|http [result|]]; simpl; auto.
  intros Hok. apply negb_true_iff in Hok. rewrite Hok.
  destruct (property result "error") as [e|]; simpl; auto.
  repeat split. apply or_else_truthy. discriminate.
Qed.

Lemma submit_settle_changes o st :
  data (submit_settle number_is_zero o st) <> data st \/
  submitted (submit_settle number_is_zero o st) <> submitted st ->
  exists http result, o = Reply http (Some result) /\ ok http = true.
Proof.
  destruct o as [|http [result|]].
  - simpl. intros [H|H]; exfalso; apply H; reflexivity.
  - destruct (ok http) eqn:Hok; [intros _; eauto|].
    destruct (submit_settle_failed (Reply http (Some result)) st)
      as (Hd & Hs & _).
    { simpl. rewrite Hok. reflexivity. }
    intros [H|H]; contradiction.
  - simpl. intros [H|H]; exfalso; apply H; reflexivity.
Qed.

(** C9. While a submission is pending and when it settles, the form's
    fields and its [submitted] flag change only on success. Sending the
    request leaves both as they are. If the request fails, by a rejected
    [fetch] or a response that is not [ok], settling leaves the three fields
    and the flag exactly as they were, so a flag that was [false] stays
    [false]. If settling changes a field or the flag, the response was [ok]
    (and its body was JSON); and in that case the three fields are reset to
    empty strings and the flag is set. So a whole [handleSubmit] whose
    request fails leaves the fields and the flag as they were. *)
Theorem failed_submission_keeps_form_state o st :
  (data (submit_start st) = data st /\
   submitted (submit_start st) = submitted st) /\
  (request_failed o = true ->
   data (submit_settle number_is_zero o st) = data st /\
   submitted (submit_settle number_is_zero o st) = submitted st) /\
  (data (submit_settle number_is_zero o st) <> data st \/
   submitted (submit_settle number_is_zero o st) <> submitted st ->
   exists http result, o = Reply http (Some result) /\ ok http = true) /\
  (forall http result,
   o = Reply http (Some result) -> ok http = true ->
   data (submit_settle number_is_zero o st)
   = {| url := ""; intent := ""; context := "" |} /\
   submitted (submit_settle number_is_zero o st) = true) /\
  (forall server,
   request_failed (server (request_body (data st))) = true ->
   data (handleSubmit number_is_zero server st) = data st /\
   submitted (handleSubmit number_is_zero server st) = submitted st).
Proof.
  split; [split; reflexivity|]. split; [|split; [|split]].
  - intros Hf. destruct (submit_settle_failed o st Hf) as (Hd & Hs & _).
    split; assumption.
  - apply submit_settle_changes.
  - intros http result -> Hok. unfold submit_settle, submit_try. simpl.
    rewrite Hok. simpl. split; reflexivity.
  - intros server Hf. unfold handleSubmit.
    destruct (submit_settle_failed _ (submit_start st) Hf) as (Hd & Hs & _).
    split; assumption.
Qed.

(** C7, amended. Every failure that makes a statement of the route's [try]
    block throw (a request body that is not JSON, a backend that cannot be
    reached, a backend reply that is not JSON or is [null]) is returned to
    the caller as one and the same outcome,
    [{ error: 'Something went wrong' }] with status 500: these causes are
    not told apart. The outcome differs from the answer to an [ok] backend
    reply whose body is JSON other than [null], which has status 200. The
    form leaves every failed request (a rejected [fetch] or a response that
    is not [ok]) with a truthy error message. *)
Theorem thrown_failures_share_one_outcome
  (req : option (value number)) backend o st :
  (throws number_json req backend = true ->
   POST number_json req backend
   = {| status := 500;
        body := JObject [("error", JString "Something went wrong")] |}) /\
  (forall data http reply,
     req = Some data ->
     backend (reserialised number_json data) = Reply http (Some reply) ->
     ok http = true -> reply <> JNull ->
     status (POST number_json req backend) = 200) /\
  (request_failed o = true ->
   truthy number_is_zero (error (submit_settle number_is_zero o st)) = true).
Proof.
  split; [|split].
  - apply POST_thrown.
  - intros data http reply Hreq Hb _ Hnull.
    destruct (POST_returned number_json req backend data http reply
                Hreq Hb Hnull) as (sid & dbg & stt & ttl & _ & _ & _ & _ & ->).
    reflexivity.
  - intros Hf. apply (submit_settle_failed o st Hf).
Qed.

(** C8, amended. For every form request [{url, intent, context}]: when the
    backend cannot be reached, or its reply is not JSON or is [null], the
    route returns the failure [{ error: 'Something went wrong' }] with
    status 500; when the backend's reply is [ok] and is an object that has
    [sessionId], [debuggingUrl], [status] and [title], the route returns
    status 200 and a body of exactly these four fields, each with the
    backend's value as [JSON.stringify] writes it, whatever else the reply
    holds. *)
Theorem bootstrap_response_fields (d : requestData) backend :
  (backend (request_body d) = NetworkError \/
   (exists http, backend (request_body d) = Reply http None) \/
   (exists http, backend (request_body d) = Reply http (Some JNull)) ->
   POST number_json (Some (request_body d)) backend
   = {| status := 500;
        body := JObject [("error", JString "Something went wrong")] |}) /\
  (forall http fields sid dbg stt ttl,
     backend (request_body d) = Reply http (Some (JObject fields)) ->
     ok http = true ->
     lookup "sessionId" fields = Some sid ->
     lookup "debuggingUrl" fields = Some dbg ->
     lookup "status" fields = Some stt ->
     lookup "title" fields = Some ttl ->
     POST number_json (Some (request_body d)) backend
     = {| status := 200;
          body := JObject [("sessionId", reserialised number_json sid);
                           ("debuggingUrl", reserialised number_json dbg);
                           ("status", reserialised number_json stt);
                           ("title", reserialised number_json ttl)] |}).
Proof.
  split.
  - intros H. apply POST_thrown. unfold throws.
    change (reserialised number_json (request_body d))
      with (request_body (number := number) d).
    destruct H as [->|[[http ->]|[http ->]]]; reflexivity.
  - intros http fields sid dbg stt ttl Hb _ H1 H2 H3 H4.
    unfold POST, try_block. cbn [await bind].
    change (reserialised number_json (request_body d))
      with (request_body (number := number) d).
    rewrite Hb. cbn [await bind property].
    rewrite H1, H2, H3, H4. reflexivity.
Qed.

End FormFacts.

(** *** The metrics *)

Section MetricsFacts.
Import MetricsComponent.
Context {number : Type} (literal : Z -> number).

(** C10. The data the component displays is the [metrics] prop whenever one
    is supplied: it renders one card per element of the prop, in order,
    with the element's id as key, its title and its value, so no card for
    an empty array. It is the mock array when the prop is [undefined], and,
    the prop having been allocated before the call, only then: the
    component then renders the four cards Completion Rate, Steps to
    completion, Error Rate and Recommendation. *)
Theorem displayed_data_is_prop_or_mock fresh (metrics : option (array number)) :
  allocated_before fresh metrics ->
  (forall a, metrics = Some a ->
     dataDisplayed literal fresh metrics = a /\
     Metrics literal fresh metrics
     = map (fun m => {| key := id m; heading := title m; text := value m |})
           (elements a)) /\
  (forall a, metrics = Some a -> elements a = [] ->
             Metrics literal fresh metrics = []) /\
  (dataDisplayed literal fresh metrics = mockData literal fresh
   <-> metrics = None) /\
  (metrics = None ->
   Metrics literal fresh metrics
   = [ {| key := literal 1; heading := "Completion Rate";
          text := Str "0%" |};
       {| key := literal 2; heading := "Steps to completion";
          text := Num (literal 20) |};
       {| key := literal 4; heading := "Error Rate"; text := Str "0%" |};
       {| key := literal 3; heading := "Recommendation";
          text := Str "We recommend you do this!" |} ]) /\
  map title (elements (mockData literal fresh))
  = ["Completion Rate"; "Steps to completion"; "Error Rate";
     "Recommendation"].
Proof.
  intros Halloc. split; [|split; [|split; [|split]]].
  - intros a ->. split; reflexivity.
  - intros a -> Ha. unfold Metrics. simpl. rewrite Ha. reflexivity.
  - split.
    + destruct metrics as [a|]; [|reflexivity].
      simpl. intros ->. simpl in Halloc. lia.
    + intros ->. reflexivity.
  - intros ->. reflexivity.
  - reflexivity.
Qed.

End MetricsFacts.

(** *** Instances *)

(** C7, as stated, fails. A request body that is not JSON and an
    unreachable backend are two causes, and the route answers both with the
    same response. A backend that reports an error with status 500 and a
    JSON body is answered with status 200, and the form then counts the
    submission as successful. *)
Lemma failure_causes_collapse :
  SubmitRoute.cause_of integer_json None (fun _ => NetworkError)
  = Some SubmitRoute.malformed_body /\
  SubmitRoute.cause_of integer_json (Some (JObject []))
    (fun _ => NetworkError)
  = Some SubmitRoute.unreachable_backend /\
  SubmitRoute.POST integer_json None (fun _ => NetworkError)
  = SubmitRoute.POST integer_json (Some (JObject [])) (fun _ => NetworkError) /\
  ~ SubmitRoute.distinguishes_causes integer_json /\
  SubmitRoute.cause_of integer_json
    (Some (FormComponent.request_body FormComponent.sample_request))
    SubmitRoute.failing_backend
  = Some SubmitRoute.backend_reported_error /\
  SubmitRoute.POST integer_json
    (Some (FormComponent.request_body FormComponent.sample_request))
    SubmitRoute.failing_backend
  = {| SubmitRoute.status := 200; SubmitRoute.body := JObject [] |} /\
  FormComponent.submitted
    (FormComponent.handleSubmit FormComponent.is_zero
       (FormComponent.route_server integer_json SubmitRoute.failing_backend)
       FormComponent.sample_state) = true.
Proof.
  repeat split. intros H.
  apply (H None (fun _ => NetworkError) (Some (JObject []))
           (fun _ => NetworkError)
           SubmitRoute.malformed_body SubmitRoute.unreachable_backend);
    try reflexivity. discriminate.
Qed.

Lemma thrown_failures_share_one_outcome_witness :
  SubmitRoute.POST integer_json None SubmitRoute.sample_backend
  = {| SubmitRoute.status := 500;
       SubmitRoute.body :=
         JObject [("error", JString "Something went wrong")] |} /\
  SubmitRoute.status
    (SubmitRoute.POST integer_json (Some (JObject []))
       SubmitRoute.sample_backend) = 200 /\
  truthy FormComponent.is_zero
    (FormComponent.error
       (FormComponent.submit_settle FormComponent.is_zero NetworkError
          FormComponent.sample_state)) = true.
Proof.
  destruct (thrown_failures_share_one_outcome FormComponent.is_zero
              integer_json None SubmitRoute.sample_backend NetworkError
              FormComponent.sample_state) as (H1 & _ & H3).
  destruct (thrown_failures_share_one_outcome FormComponent.is_zero
              integer_json (Some (JObject [])) SubmitRoute.sample_backend
              NetworkError FormComponent.sample_state) as (_ & H2 & _).
  split; [|split].
  - apply H1. reflexivity.
  - apply (H2 (JObject []) 200 SubmitRoute.sample_reply);
      try reflexivity. discriminate.
  - apply H3. reflexivity.
Defined.

(** C8, as stated, fails: when the backend reports an error with status 500
    and the body [{ error: 'boom' }], the route answers with status 200 and
    an empty object, which is neither the four fields nor a failure. *)
Lemma backend_error_gives_empty_success :
  SubmitRoute.POST integer_json
    (Some (FormComponent.request_body FormComponent.sample_request))
    SubmitRoute.failing_backend
  = {| SubmitRoute.status := 200; SubmitRoute.body := JObject [] |} /\
  ~ SubmitRoute.four_fields_or_failure integer_json
      (Some (FormComponent.request_body FormComponent.sample_request))
      SubmitRoute.failing_backend.
Proof.
  split; [reflexivity|].
  intros [(sid & dbg & stt & ttl & H)|(message & H)];
    vm_compute in H; discriminate H.
Qed.

Lemma bootstrap_response_fields_witness :
  SubmitRoute.POST integer_json
    (Some (FormComponent.request_body FormComponent.sample_request))
    SubmitRoute.sample_backend
  = {| SubmitRoute.status := 200;
       SubmitRoute.body :=
         JObject [("sessionId", JString "s-1");
                  ("debuggingUrl", JString "ws://localhost:9222/devtools");
                  ("status", JString "running");
                  ("title", JString "Example Domain")] |} /\
  SubmitRoute.POST integer_json
    (Some (FormComponent.request_body FormComponent.sample_request))
    (fun _ => NetworkError)
  = {| SubmitRoute.status := 500;
       SubmitRoute.body :=
         JObject [("error", JString "Something went wrong")] |}.
Proof.
  split.
  - destruct (bootstrap_response_fields integer_json
                FormComponent.sample_request SubmitRoute.sample_backend)
      as [_ H].
    apply (H 200 (match SubmitRoute.sample_reply with
                  | JObject fields => fields
                  | _ => []
                  end)
             (JString "s-1") (JString "ws://localhost:9222/devtools")
             (JString "running") (JString "Example Domain")); reflexivity.
  - destruct (bootstrap_response_fields integer_json
                FormComponent.sample_request (fun _ => NetworkError))
      as [H _].
    apply H. left. reflexivity.
Defined.

Lemma failed_submission_keeps_form_state_witness :
  FormComponent.data
    (FormComponent.submit_settle FormComponent.is_zero
       (Reply 500 (Some (JObject [("error", JString "Something went wrong")])))
       FormComponent.sample_state)
  = FormComponent.sample_request /\
  FormComponent.submitted
    (FormComponent.submit_settle FormComponent.is_zero
       (Reply 500 (Some (JObject [("error", JString "Something went wrong")])))
       FormComponent.sample_state)
  = false.
Proof.
  destruct (failed_submission_keeps_form_state FormComponent.is_zero
              (Reply 500
                 (Some (JObject [("error", JString "Something went wrong")])))
              FormComponent.sample_state) as (_ & H & _).
  apply H. reflexivity.
Defined.

Lemma displayed_data_is_prop_or_mock_witness :
  MetricsComponent.Metrics (fun z => z) 2%nat
    (Some MetricsComponent.two_metrics)
  = [ {| MetricsComponent.key := 7; MetricsComponent.heading := "Latency";
         MetricsComponent.text := MetricsComponent.Num 120 |};
      {| MetricsComponent.key := 8; MetricsComponent.heading := "Verdict";
         MetricsComponent.text := MetricsComponent.Str "ok" |} ] /\
  MetricsComponent.Metrics (fun z => z) 1%nat
    (Some MetricsComponent.no_metrics) = [] /\
  MetricsComponent.dataDisplayed (fun z => z) 1%nat
    (Some MetricsComponent.no_metrics) = MetricsComponent.no_metrics.
Proof.
  destruct (displayed_data_is_prop_or_mock (fun z : Z => z) 2%nat
              (Some MetricsComponent.two_metrics)) as (H0 & _).
  { simpl. lia. }
  destruct (displayed_data_is_prop_or_mock (fun z : Z => z) 1%nat
              (Some MetricsComponent.no_metrics)) as (H1 & H2 & _).
  { simpl. lia. }
  split; [|split].
  - destruct (H0 MetricsComponent.two_metrics eq_refl) as [_ H]. exact H.
  - apply (H2 MetricsComponent.no_metrics); reflexivity.
  - destruct (H1 MetricsComponent.no_metrics eq_refl) as [H _]. exact H.
Defined.

End WebFacts.

(* ===================================================================== *)
(** ** Further properties of the ledger *)
(* ===================================================================== *)

Module LedgerExtras.
Import Ledger LedgerFacts.

(** *** What one step can do to the store *)

Lemma before_insert_agent db n n' :
  before_insert db n = Ok n' -> new_agent_id n' = new_agent_id n.
Proof.
  unfold before_insert, next_iteration. destruct (new_iteration n) as [i|].
  - destruct (int4 i); [|discriminate]. intros H; injection H as <-.
    reflexivity.
  - destruct (coalesce_max_plus_1 _); [|discriminate].
    intros H; injection H as <-. reflexivity.
Qed.

Lemma complete_insert_cases db n :
  (fst (complete_insert db n) = db /\
   exists e, snd (complete_insert db n) = Err e) \/
  (exists r, complete_insert db n = (store_row db r, Ok r) /\
             new_agent_id n = Some (agent_id r) /\
             new_iteration n = Some (iteration r) /\
             has_key (agent_loops db) (agent_id r) (iteration r) = false /\
             agent_exists (agents db) (agent_id r) = true).
Proof.
  unfold complete_insert, check_constraints.
  destruct (new_agent_id n) as [a|]; [|left; simpl; eauto].
  destruct (new_iteration n) as [i|]; [|left; simpl; eauto].
  destruct (has_key (agent_loops db) a i) eqn:Hk; [left; simpl; eauto|].
  destruct (agent_exists (agents db) a) eqn:He; [|left; simpl; eauto].
  right. eexists. split; [reflexivity|]. simpl. auto.
Qed.

(** A step stores at most one row, and only one that passed the primary key
    and the reference to [agents]. *)
Lemma step_store cfg i :
  store (step cfg i) = store cfg \/
  exists n r, nth_error (calls cfg) i = Some (Triggered n) /\
              store (step cfg i) = store_row (store cfg) r /\
              new_agent_id n = Some (agent_id r) /\
              new_iteration n = Some (iteration r) /\
              has_key (agent_loops (store cfg)) (agent_id r) (iteration r)
              = false /\
              agent_exists (agents (store cfg)) (agent_id r) = true.
Proof.
  unfold step. destruct (nth_error (calls cfg) i) as [c|] eqn:Hn; [|auto].
  destruct c as [n|n|res]; cbn [advance].
  - destruct (before_insert (store cfg) n); left; reflexivity.
  - destruct (complete_insert_cases (store cfg) n)
      as [[Hs _]|(r & Hc & Ha & Hi & Hk & He)].
    + destruct (complete_insert (store cfg) n). simpl in *. left. exact Hs.
    + rewrite Hc. right. exists n, r. simpl.
      repeat split; assumption || reflexivity.
  - left. reflexivity.
Qed.

Section StoreInvariant.

Variable P : database -> Prop.
Hypothesis P_store_row : forall db r,
  P db ->
  has_key (agent_loops db) (agent_id r) (iteration r) = false ->
  agent_exists (agents db) (agent_id r) = true ->
  P (store_row db r).

Lemma step_store_invariant cfg i : P (store cfg) -> P (store (step cfg i)).
Proof.
  intros H. destruct (step_store cfg i) as [->|(n & r & _ & -> & _ & _ & Hk & He)].
  - exact H.
  - apply P_store_row; assumption.
Qed.

Lemma run_store_invariant sched : forall cfg,
  P (store cfg) -> P (store (run sched cfg)).
Proof.
  induction sched as [|i sched IH]; intros cfg H; simpl; [exact H|].
  apply IH. apply step_store_invariant. exact H.
Qed.

Lemma insert_store_invariant db n : P db -> P (fst (insert db n)).
Proof.
  intros H. rewrite <- insert_as_run.
  apply (run_store_invariant [0%nat; 0%nat]
           {| store := db; calls := [Calling n] |}). exact H.
Qed.

Lemma insert_all_store_invariant ns : forall db,
  P db -> P (fst (insert_all db ns)).
Proof.
  induction ns as [|n ns IH]; intros db H; simpl; [exact H|].
  pose proof (insert_store_invariant db n H) as H1.
  destruct (insert db n) as [db1 r]. simpl in H1.
  specialize (IH db1 H1). destruct (insert_all db1 ns). exact IH.
Qed.

End StoreInvariant.

(** *** The primary key *)

Lemma has_key_keys t a i : has_key t a i = true <-> In (a, i) (keys t).
Proof.
  unfold has_key, keys. rewrite existsb_exists, in_map_iff. split.
  - intros (r & Hr & Hk). apply andb_true_iff in Hk. destruct Hk as [Ha Hi].
    apply N.eqb_eq in Ha. apply Z.eqb_eq in Hi. exists r. subst. auto.
  - intros (r & Hk & Hr). injection Hk as <- <-. exists r.
    rewrite N.eqb_refl, Z.eqb_refl. auto.
Qed.

Lemma keys_store_row db r :
  NoDup (keys (agent_loops db)) ->
  has_key (agent_loops db) (agent_id r) (iteration r) = false ->
  NoDup (keys (agent_loops (store_row db r))).
Proof.
  intros Hnd Hk. unfold keys. simpl. rewrite map_app. simpl.
  apply NoDup_app.
  - exact Hnd.
  - constructor; [intros []|constructor].
  - intros k Hin [<-|[]]. apply has_key_keys in Hin.
    rewrite Hin in Hk. discriminate.
Qed.

(** X1. No two stored rows ever share [(agent_id, iteration)]: if the keys
    of the table are pairwise distinct, they still are after any
    interleaving of any calls, with the iteration supplied or not, and after
    any sequence of inserts. *)
Theorem primary_key_kept cfg sched ns :
  NoDup (keys (agent_loops (store cfg))) ->
  NoDup (keys (agent_loops (store (run sched cfg)))) /\
  NoDup (keys (agent_loops (fst (insert_all (store cfg) ns)))).
Proof.
  intros H. split.
  - apply (run_store_invariant (fun db => NoDup (keys (agent_loops db)))).
    + intros db r Hd Hk _. apply keys_store_row; assumption.
    + exact H.
  - apply (insert_all_store_invariant
             (fun db => NoDup (keys (agent_loops db)))).
    + intros db r Hd Hk _. apply keys_store_row; assumption.
    + exact H.
Qed.

Lemma primary_key_kept_witness :
  NoDup (keys (agent_loops
                 (store (run [0%nat; 1%nat; 0%nat; 1%nat]
                             (spawn db_A1 1%N two_calls))))) /\
  NoDup (keys (agent_loops
                 (fst (insert_all db_A1 [append 1%N 5 None None;
                                         append 1%N 5 None None])))).
Proof.
  apply (primary_key_kept (spawn db_A1 1%N two_calls)
           [0%nat; 1%nat; 0%nat; 1%nat]
           [append 1%N 5 None None; append 1%N 5 None None]).
  simpl. constructor.
Defined.

(** *** Stored records stay *)

Lemma get_app_found t rows a i r :
  get t a i = Some r -> get (t ++ rows) a i = Some r.
Proof. unfold get. apply find_app_found. Qed.

(** X2. The table only grows: a record that can be read under
    [(agent_id, iteration)] is read back unchanged after any interleaving of
    any calls and after any sequence of inserts, and the table [agents] is
    not touched. *)
Theorem stored_records_never_change cfg sched ns a i r :
  get (agent_loops (store cfg)) a i = Some r ->
  get (agent_loops (store (run sched cfg))) a i = Some r /\
  get (agent_loops (fst (insert_all (store cfg) ns))) a i = Some r /\
  agents (store (run sched cfg)) = agents (store cfg) /\
  agents (fst (insert_all (store cfg) ns)) = agents (store cfg).
Proof.
  intros Hget.
  set (P := fun db => (exists rows, agent_loops db
                                    = agent_loops (store cfg) ++ rows) /\
                      agents db = agents (store cfg)).
  assert (HP : forall db r0, P db ->
            has_key (agent_loops db) (agent_id r0) (iteration r0) = false ->
            agent_exists (agents db) (agent_id r0) = true ->
            P (store_row db r0)).
  { intros db r0 [[rows Hrows] Hag] _ _. split; [|exact Hag].
    exists (rows ++ [r0]). simpl. rewrite Hrows, app_assoc. reflexivity. }
  assert (H0 : P (store cfg)).
  { split; [exists []; rewrite app_nil_r|]; reflexivity. }
  destruct (run_store_invariant P HP sched cfg H0) as [[rows1 H1] Ha1].
  destruct (insert_all_store_invariant P HP ns (store cfg) H0)
    as [[rows2 H2] Ha2].
  rewrite H1, H2. repeat split; try assumption;
    apply get_app_found; exact Hget.
Qed.

Lemma stored_records_never_change_witness :
  get (agent_loops
         (store (run [0%nat; 1%nat; 0%nat; 1%nat]
                     (spawn (fst (insert db_A1 (append 1%N 1 None None)))
                            1%N two_calls)))) 1%N 1
  = Some {| agent_id := 1%N; iteration := 1;
            plan_result := None; execution_result := None |}.
Proof.
  apply (stored_records_never_change
           (spawn (fst (insert db_A1 (append 1%N 1 None None))) 1%N two_calls)
           [0%nat; 1%nat; 0%nat; 1%nat] [] 1%N 1).
  reflexivity.
Defined.

(** *** The reference to [agents] *)

Lemma referential_integrity_store_row db r :
  referential_integrity db = true ->
  agent_exists (agents db) (agent_id r) = true ->
  referential_integrity (store_row db r) = true.
Proof.
  unfold referential_integrity. simpl. intros Hri Hex.
  rewrite forallb_app, Hri. simpl. rewrite Hex. reflexivity.
Qed.

(** X3. Every stored row refers to a registered agent, and this is kept by
    any interleaving of any calls and by any sequence of inserts. *)
Theorem referential_integrity_kept cfg sched ns :
  referential_integrity (store cfg) = true ->
  referential_integrity (store (run sched cfg)) = true /\
  referential_integrity (fst (insert_all (store cfg) ns)) = true.
Proof.
  intros H. split.
  - apply (run_store_invariant (fun db => referential_integrity db = true)).
    + intros db r Hd _ Hex. apply referential_integrity_store_row; assumption.
    + exact H.
  - apply (insert_all_store_invariant
             (fun db => referential_integrity db = true)).
    + intros db r Hd _ Hex. apply referential_integrity_store_row; assumption.
    + exact H.
Qed.

Lemma referential_integrity_kept_witness :
  referential_integrity
    (store (run [0%nat; 1%nat; 0%nat; 1%nat] (spawn db_A1 2%N two_calls)))
  = true /\
  referential_integrity
    (fst (insert_all db_A1 [cycle 2%N None None; cycle 1%N None None]))
  = true.
Proof.
  apply (referential_integrity_kept (spawn db_A1 2%N two_calls)
           [0%nat; 1%nat; 0%nat; 1%nat]
           [cycle 2%N None None; cycle 1%N None None]).
  reflexivity.
Defined.

(** *** Other agents *)

Lemma advance_call_agent db c :
  call_agent (snd (advance db c)) = call_agent c \/
  call_agent (snd (advance db c)) = None.
Proof.
  destruct c as [n|n|res]; simpl.
  - destruct (before_insert db n) as [n'|e] eqn:Hb; simpl; [|auto].
    left. apply (before_insert_agent _ _ _ Hb).
  - destruct (complete_insert db n). simpl. auto.
  - auto.
Qed.

Lemma step_call_agents a' cfg i :
  Forall (fun c => call_agent c <> Some a') (calls cfg) ->
  Forall (fun c => call_agent c <> Some a') (calls (step cfg i)).
Proof.
  intros H. unfold step.
  destruct (nth_error (calls cfg) i) as [c|] eqn:Hn; [|exact H].
  pose proof (nth_error_Forall _ _ _ _ H Hn) as Hc. simpl in Hc.
  pose proof (advance_call_agent (store cfg) c) as Hadv.
  destruct (advance (store cfg) c) as [db' c']. simpl in *.
  apply Forall_replace_nth; [exact H|].
  destruct Hadv as [->| ->]; [exact Hc|discriminate].
Qed.

Lemma rows_of_store_row db r a' :
  agent_id r <> a' ->
  rows_of (agent_loops (store_row db r)) a' = rows_of (agent_loops db) a'.
Proof.
  intros Hne. unfold rows_of. simpl. rewrite filter_app. simpl.
  destruct (N.eqb_spec (agent_id r) a'); [contradiction|].
  apply app_nil_r.
Qed.

Lemma step_other_agents a' cfg i :
  Forall (fun c => call_agent c <> Some a') (calls cfg) ->
  rows_of (agent_loops (store (step cfg i))) a'
  = rows_of (agent_loops (store cfg)) a'.
Proof.
  intros H.
  destruct (step_store cfg i) as [->|(n & r & Hn & -> & Ha & _)];
    [reflexivity|].
  apply rows_of_store_row. intros Heq.
  pose proof (nth_error_Forall _ _ _ _ H Hn) as Hc. simpl in Hc.
  apply Hc. rewrite Ha, Heq. reflexivity.
Qed.

(** X4. Calls for other agents never touch an agent's records: when no call
    of the pool writes for agent [a'], the rows of [a'] are the same, in the
    same order, after any interleaving; and an insert for another agent,
    run on its own, leaves them as they are. *)
Theorem other_agents_untouched cfg sched a' :
  Forall (fun c => call_agent c <> Some a') (calls cfg) ->
  rows_of (agent_loops (store (run sched cfg))) a'
  = rows_of (agent_loops (store cfg)) a' /\
  (forall n, new_agent_id n <> Some a' ->
     rows_of (agent_loops (fst (insert (store cfg) n))) a'
     = rows_of (agent_loops (store cfg)) a').
Proof.
  intros H. split.
  - revert cfg H. induction sched as [|i sched IH]; intros cfg H; simpl;
      [reflexivity|].
    rewrite IH by (apply step_call_agents; exact H).
    apply step_other_agents. exact H.
  - intros n Hn. rewrite <- insert_as_run. simpl.
    assert (H1 : Forall (fun c => call_agent c <> Some a') [Calling n]).
    { constructor; [exact Hn|constructor]. }
    rewrite (step_other_agents a'
               (step {| store := store cfg; calls := [Calling n] |} 0%nat))
      by (apply step_call_agents; exact H1).
    apply (step_other_agents a' {| store := store cfg; calls := [Calling n] |}).
    exact H1.
Qed.

Lemma other_agents_untouched_witness :
  rows_of
    (agent_loops (store (run [0%nat; 1%nat; 0%nat; 1%nat]
                             (spawn db_A1 1%N two_calls)))) 2%N
  = [].
Proof.
  destruct (other_agents_untouched (spawn db_A1 1%N two_calls)
              [0%nat; 1%nat; 0%nat; 1%nat] 2%N) as [H _].
  - repeat constructor; simpl; discriminate.
  - exact H.
Defined.

(** *** The value the trigger assigns *)

Lemma before_insert_cycle_inv db a p e n' :
  before_insert db (cycle a p e) = Ok n' ->
  n' = append a (next_free (agent_loops db) a) p e /\
  next_free (agent_loops db) a <= INT_MAX.
Proof.
  unfold before_insert, next_iteration, next_free. simpl.
  destruct (sql_max (iterations_of (agent_loops db) a)) as [m|]; simpl.
  - destruct (Z.leb_spec (m + 1) INT_MAX) as [Hle|Hgt]; [|discriminate].
    intros H; injection H as <-. split; [reflexivity|assumption].
  - intros H; injection H as <-. split; [reflexivity|].
    unfold INT_MAX. lia.
Qed.

Lemma next_free_above t a i :
  In i (iterations_of t a) -> i < next_free t a.
Proof.
  intros Hin. unfold next_free.
  destruct (sql_max (iterations_of t a)) as [m|] eqn:E.
  - apply sql_max_Some in E. destruct E as [_ Hle].
    specialize (Hle _ Hin). lia.
  - apply sql_max_None in E. rewrite E in Hin. destruct Hin.
Qed.

(** X5. An insert that leaves the iteration [NULL] and succeeds stores an
    iteration strictly greater than every iteration the agent already had,
    whatever gaps there are below, and appends it to the agent's
    iterations: numbers are never reused and gaps are never filled. *)
Theorem trigger_value_above_all db a p e db' r :
  insert db (cycle a p e) = (db', Ok r) ->
  (forall i, In i (iterations_of (agent_loops db) a) -> i < iteration r) /\
  iteration r <= INT_MAX /\
  agent_id r = a /\ plan_result r = p /\ execution_result r = e /\
  iterations_of (agent_loops db') a
  = iterations_of (agent_loops db) a ++ [iteration r].
Proof.
  unfold insert. destruct (before_insert db (cycle a p e)) as [n'|err] eqn:Hb;
    [|intros H; discriminate H].
  apply before_insert_cycle_inv in Hb. destruct Hb as [-> Hmax].
  unfold complete_insert, check_constraints.
  cbn [append new_agent_id new_iteration new_plan_result
       new_execution_result].
  rewrite next_free_unused.
  destruct (agent_exists (agents db) a); [|intros H; discriminate H].
  intros H. injection H as <- <-. cbn [iteration agent_id plan_result
                                       execution_result].
  repeat split; try assumption.
  - apply next_free_above.
  - rewrite iterations_of_store. cbn [agent_id iteration].
    rewrite N.eqb_refl. reflexivity.
Qed.

Lemma trigger_value_above_all_witness :
  iterations_of
    (agent_loops
       (fst (insert (fst (insert db_A1 (append 1%N 5 None None)))
                    (cycle 1%N None None)))) 1%N
  = [5; 6].
Proof.
  destruct (trigger_value_above_all
              (fst (insert db_A1 (append 1%N 5 None None))) 1%N None None
              (fst (insert (fst (insert db_A1 (append 1%N 5 None None)))
                           (cycle 1%N None None)))
              {| agent_id := 1%N; iteration := 6;
                 plan_result := None; execution_result := None |})
    as (_ & _ & _ & _ & _ & H).
  - reflexivity.
  - exact H.
Defined.

(** X6. At the top of the [INTEGER] range the counter stops: when an agent
    has a record with iteration 2147483647, every insert for the agent that
    leaves the iteration [NULL] fails with [numeric_value_out_of_range] and
    stores nothing. *)
Theorem counter_overflow_rejected db a p e :
  In INT_MAX (iterations_of (agent_loops db) a) ->
  insert db (cycle a p e) = (db, Err numeric_value_out_of_range).
Proof.
  intros Hin. unfold insert, before_insert, next_iteration. simpl.
  destruct (sql_max (iterations_of (agent_loops db) a)) as [m|] eqn:E.
  - apply sql_max_Some in E. destruct E as [_ Hle].
    specialize (Hle _ Hin). simpl.
    destruct (Z.leb_spec (m + 1) INT_MAX); [lia|reflexivity].
  - apply sql_max_None in E. rewrite E in Hin. destruct Hin.
Qed.

Lemma counter_overflow_rejected_witness :
  insert (fst (insert db_A1 (append 1%N 2147483647 None None)))
         (cycle 1%N None None)
  = (fst (insert db_A1 (append 1%N 2147483647 None None)),
     Err numeric_value_out_of_range).
Proof.
  apply (counter_overflow_rejected
           (fst (insert db_A1 (append 1%N 2147483647 None None)))).
  simpl. left. reflexivity.
Defined.

(** X7. A row without an [agent_id] is rejected by the [NOT NULL]
    constraint, and nothing is stored, whether its iteration is supplied (as
    an [INTEGER]) or left to the trigger, which then computes 1 over no
    rows. *)
Theorem null_agent_id_rejected db n :
  new_agent_id n = None ->
  (forall i, new_iteration n = Some i -> int4 i = true) ->
  insert db n = (db, Err not_null_violation) /\
  (new_iteration n = None ->
   next_iteration (agent_loops db) n = Ok (with_iteration n 1)).
Proof.
  intros Ha Hty. split.
  - unfold insert, before_insert, next_iteration.
    destruct (new_iteration n) as [i|] eqn:Ei.
    + rewrite (Hty i eq_refl). unfold complete_insert, check_constraints.
      rewrite Ha. reflexivity.
    + rewrite Ha. simpl. unfold complete_insert, check_constraints. simpl.
      rewrite Ha. reflexivity.
  - intros Hn. unfold next_iteration. rewrite Hn, Ha. reflexivity.
Qed.

Lemma null_agent_id_rejected_witness :
  insert db_A1 {| new_agent_id := None; new_iteration := None;
                  new_plan_result := None; new_execution_result := None |}
  = (db_A1, Err not_null_violation).
Proof.
  destruct (null_agent_id_rejected db_A1
              {| new_agent_id := None; new_iteration := None;
                 new_plan_result := None; new_execution_result := None |})
    as [H _].
  - reflexivity.
  - intros i Hi. discriminate Hi.
  - exact H.
Defined.

(** *** Cycles after earlier records *)

Lemma next_free_store_row db a p e :
  next_free
    (agent_loops
       (store_row db {| agent_id := a;
                        iteration := next_free (agent_loops db) a;
                        plan_result := p; execution_result := e |})) a
  = next_free (agent_loops db) a + 1.
Proof.
  unfold next_free at 1. rewrite iterations_of_store.
  cbn [agent_id iteration]. rewrite N.eqb_refl.
  change [next_free (agent_loops db) a]
    with (Zseq (next_free (agent_loops db) a) 1).
  rewrite (next_after_Zseq _ (next_free (agent_loops db) a) 1); reflexivity.
Qed.

(** X8. From any table, with earlier records and gaps or without, [K]
    inserts for a registered agent that leave the iteration [NULL], run one
    after the other, all succeed (the values staying within [INTEGER]) and
    receive, in call order, the [K] values that follow the agent's prior
    maximum; these are appended to the agent's iterations. *)
Theorem sequential_cycles_continue payloads : forall db a,
  agent_exists (agents db) a = true ->
  next_free (agent_loops db) a + Z.of_nat (length payloads) - 1 <= INT_MAX ->
  map ok_iteration (snd (insert_all db (cycles a payloads)))
  = map Some (Zseq (next_free (agent_loops db) a) (length payloads)) /\
  iterations_of (agent_loops (fst (insert_all db (cycles a payloads)))) a
  = iterations_of (agent_loops db) a
    ++ Zseq (next_free (agent_loops db) a) (length payloads).
Proof.
  induction payloads as [|[p e] ps IH]; intros db a Hex Hmax.
  - simpl. rewrite app_nil_r. auto.
  - cbn [cycles map fst snd insert_all length] in *.
    rewrite insert_cycle_ok by (try assumption; lia).
    set (r := {| agent_id := a; iteration := next_free (agent_loops db) a;
                 plan_result := p; execution_result := e |}).
    specialize (IH (store_row db r) a).
    fold (cycles a ps) in *.
    unfold r in IH. rewrite next_free_store_row in IH. fold r in IH.
    destruct (insert_all (store_row db r) (cycles a ps)) as [db2 rs] eqn:E2.
    simpl fst in *; simpl snd in *.
    destruct IH as [IH1 IH2]; [exact Hex|lia|].
    split.
    + cbn [map ok_iteration Zseq]. subst r; cbn [iteration]. f_equal.
      exact IH1.
    + rewrite IH2, iterations_of_store. subst r; cbn [agent_id iteration].
      rewrite N.eqb_refl, <- app_assoc. reflexivity.
Qed.

Lemma sequential_cycles_continue_witness :
  map ok_iteration
    (snd (insert_all (fst (insert db_A1 (append 1%N 5 None None)))
                     (cycles 1%N two_calls)))
  = [Some 6; Some 7].
Proof.
  destruct (sequential_cycles_continue two_calls
              (fst (insert db_A1 (append 1%N 5 None None))) 1%N) as [H _].
  - reflexivity.
  - vm_compute. discriminate.
  - exact H.
Defined.

(** *** Reading back *)

Lemma before_insert_payload db n n' :
  before_insert db n = Ok n' ->
  new_plan_result n' = new_plan_result n /\
  new_execution_result n' = new_execution_result n.
Proof.
  unfold before_insert, next_iteration. destruct (new_iteration n) as [i|].
  - destruct (int4 i); [|discriminate]. intros H; injection H as <-.
    split; reflexivity.
  - destruct (coalesce_max_plus_1 _); [|discriminate].
    intros H; injection H as <-. split; reflexivity.
Qed.

(** X19. What an insert stored can be read back: after a successful insert,
    with the iteration supplied or assigned, the record found under the
    returned [(agent_id, iteration)] is the returned one, and it carries the
    statement's agent, plan result and execution result, [NULL]s included.
    Under a key that no row has, nothing is found. *)
Theorem insert_then_get db n db' r :
  insert db n = (db', Ok r) ->
  get (agent_loops db') (agent_id r) (iteration r) = Some r /\
  new_agent_id n = Some (agent_id r) /\
  plan_result r = new_plan_result n /\
  execution_result r = new_execution_result n /\
  (forall a i, has_key (agent_loops db') a i = false ->
               get (agent_loops db') a i = None).
Proof.
  intros H.
  assert (Hpay : plan_result r = new_plan_result n /\
                 execution_result r = new_execution_result n).
  { unfold insert in H.
    destruct (before_insert db n) as [n'|e] eqn:Hb; [|discriminate H].
    destruct (before_insert_payload _ _ _ Hb) as [<- <-].
    unfold complete_insert, check_constraints in H.
    destruct (new_agent_id n'); [|discriminate H].
    destruct (new_iteration n'); [|discriminate H].
    destruct (has_key _ _ _); [discriminate H|].
    destruct (agent_exists _ _); [|discriminate H].
    injection H as _ <-. split; reflexivity. }
  destruct (insert_grows _ _ _ _ H)
    as [_ [[_ [e He]]|(r' & Hr & -> & Ha & Hk & _)]]; [discriminate He|].
  injection Hr as <-. repeat split; try apply Hpay; try exact Ha.
  - unfold get. cbn [store_row agent_loops].
    unfold has_key in Hk.
    rewrite (find_app_missed _ _ _ (existsb_false_find _ _ Hk)). simpl.
    rewrite N.eqb_refl, Z.eqb_refl. reflexivity.
  - intros a i Hnone. apply existsb_false_find. exact Hnone.
Qed.

Lemma insert_then_get_witness :
  get (agent_loops (fst (insert db_A1 (cycle 1%N (Some "plan"%string) None))))
      1%N 1
  = Some {| agent_id := 1%N; iteration := 1;
            plan_result := Some "plan"%string; execution_result := None |}.
Proof.
  destruct (insert_then_get db_A1 (cycle 1%N (Some "plan"%string) None)
              (fst (insert db_A1 (cycle 1%N (Some "plan"%string) None)))
              {| agent_id := 1%N; iteration := 1;
                 plan_result := Some "plan"%string;
                 execution_result := None |}) as [H _].
  - reflexivity.
  - exact H.
Defined.

(** *** Callers that take turns *)

Lemma nth_error_middle (pre : list call) c rest :
  nth_error (pre ++ c :: rest) (length pre) = Some c.
Proof. induction pre as [|c0 pre IH]; simpl; [reflexivity|exact IH]. Qed.

Lemma replace_nth_middle (pre : list call) c c' rest :
  replace_nth (length pre) c' (pre ++ c :: rest) = pre ++ c' :: rest.
Proof.
  induction pre as [|c0 pre IH]; simpl; [reflexivity|].
  rewrite IH. reflexivity.
Qed.

Lemma step_twice_is_insert db pre n rest :
  step (step {| store := db; calls := pre ++ Calling n :: rest |}
             (length pre)) (length pre)
  = {| store := fst (insert db n);
       calls := pre ++ Finished (snd (insert db n)) :: rest |}.
Proof.
  unfold insert. unfold step at 2. cbn [calls store].
  rewrite nth_error_middle. cbn [advance].
  destruct (before_insert db n) as [n'|e]; rewrite replace_nth_middle.
  - unfold step. cbn [calls store]. rewrite nth_error_middle. cbn [advance].
    destruct (complete_insert db n') as [db' r].
    rewrite replace_nth_middle. reflexivity.
  - unfold step. cbn [calls store]. rewrite nth_error_middle. cbn [advance].
    rewrite replace_nth_middle. reflexivity.
Qed.

Lemma serial_run_from ns : forall pre db,
  run (serial (length pre) (length ns))
      {| store := db; calls := pre ++ map Calling ns |}
  = {| store := fst (insert_all db ns);
       calls := pre ++ map Finished (snd (insert_all db ns)) |}.
Proof.
  induction ns as [|n ns IH]; intros pre db; [reflexivity|].
  cbn [length serial map run fold_left insert_all].
  rewrite step_twice_is_insert.
  destruct (insert db n) as [db1 r]. cbn [fst snd].
  replace (pre ++ Finished r :: map Calling ns)
    with ((pre ++ [Finished r]) ++ map Calling ns)
    by (rewrite <- app_assoc; reflexivity).
  replace (S (length pre)) with (length (pre ++ [Finished r]))
    by (rewrite length_app; simpl; lia).
  change (fold_left step (serial (length (pre ++ [Finished r])) (length ns))
            {| store := db1;
               calls := (pre ++ [Finished r]) ++ map Calling ns |})
    with (run (serial (length (pre ++ [Finished r])) (length ns))
            {| store := db1;
               calls := (pre ++ [Finished r]) ++ map Calling ns |}).
  rewrite IH. destruct (insert_all db1 ns) as [db2 rs]. cbn [fst snd map].
  rewrite <- app_assoc. reflexivity.
Qed.

(** *** Registering agents *)

Lemma agent_exists_In ags a : agent_exists ags a = true <-> In a (map id ags).
Proof.
  unfold agent_exists. rewrite existsb_exists, in_map_iff. split.
  - intros (g & Hg & Hid). apply N.eqb_eq in Hid. eauto.
  - intros (g & Hid & Hg). exists g. split; [exact Hg|].
    apply N.eqb_eq. exact Hid.
Qed.

Lemma agent_exists_app ags g a :
  agent_exists (ags ++ [g]) a = agent_exists ags a || N.eqb (id g) a.
Proof. unfold agent_exists. rewrite existsb_app. simpl. rewrite orb_false_r. reflexivity. Qed.

Lemma insert_agent_cases generated db n :
  (fst (insert_agent generated db n) = db /\
   exists e, snd (insert_agent generated db n) = Err e) \/
  (exists g,
     insert_agent generated db n
     = ({| agents := agents db ++ [g]; agent_loops := agent_loops db |}, Ok g)
     /\ agent_exists (agents db) (id g) = false
     /\ (new_id n = id_default -> id g = generated)).
Proof.
  unfold insert_agent.
  destruct (match new_id n with
            | id_default => Some generated
            | id_given v => v
            end) as [i|] eqn:Hid; [|left; simpl; eauto].
  destruct (new_session_id n) as [sid|]; [|left; simpl; eauto].
  destruct (agent_exists (agents db) i) eqn:Hex; [left; simpl; eauto|].
  right. eexists. split; [reflexivity|]. simpl. split; [exact Hex|].
  intros Hd. rewrite Hd in Hid. injection Hid as <-. reflexivity.
Qed.

(** X10. Inserting into [agents] keeps the ledger consistent: agent ids stay
    pairwise distinct, every loop record still refers to a registered agent,
    the loop records are not touched, and no registered agent disappears.
    A row that relies on the default gets the generated id. *)
Theorem agent_registration_keeps_ledger generated db n :
  NoDup (map id (agents db)) ->
  referential_integrity db = true ->
  NoDup (map id (agents (fst (insert_agent generated db n)))) /\
  referential_integrity (fst (insert_agent generated db n)) = true /\
  agent_loops (fst (insert_agent generated db n)) = agent_loops db /\
  (forall a, agent_exists (agents db) a = true ->
     agent_exists (agents (fst (insert_agent generated db n))) a = true) /\
  (forall g, snd (insert_agent generated db n) = Ok g ->
     new_id n = id_default -> id g = generated).
Proof.
  intros Hnd Hri.
  destruct (insert_agent_cases generated db n)
    as [[Hdb [e He]]|(g & Hins & Hnew & Hgen)].
  - rewrite Hdb, He. repeat split; auto. intros g H; discriminate H.
  - rewrite Hins. cbn [fst snd agents agent_loops]. repeat split.
    + rewrite map_app. apply NoDup_app; [exact Hnd| |].
      * simpl. constructor; [intros []|constructor].
      * intros a Hin [<-|[]]. apply agent_exists_In in Hin.
        rewrite Hin in Hnew. discriminate.
    + unfold referential_integrity in *. simpl.
      rewrite forallb_forall in *. intros r Hr.
      rewrite agent_exists_app, (Hri r Hr). reflexivity.
    + intros a Ha. rewrite agent_exists_app, Ha. reflexivity.
    + intros g' Hg' Hd. injection Hg' as <-. apply Hgen. exact Hd.
Qed.

Lemma agent_registration_keeps_ledger_witness :
  NoDup (map id (agents
                   (fst (insert_agent 2%N db_A1
                           {| new_id := id_default;
                              new_session_id := Some 100%N;
                              new_intent := None |})))) /\
  agent_exists
    (agents (fst (insert_agent 2%N db_A1
                    {| new_id := id_default; new_session_id := Some 100%N;
                       new_intent := None |}))) 1%N = true.
Proof.
  destruct (agent_registration_keeps_ledger 2%N db_A1
              {| new_id := id_default; new_session_id := Some 100%N;
                 new_intent := None |}) as (H1 & _ & _ & H4 & _).
  - simpl. constructor; [intros []|constructor].
  - reflexivity.
  - split; [exact H1|]. apply H4. reflexivity.
Defined.

(** X11. Registration opens the ledger for an agent. On a consistent
    database, before an agent row with id [a] is inserted, an insert into
    [agent_loops] for [a] that leaves the iteration [NULL] fails on the
    foreign key; once the agent row has been inserted, the same insert
    succeeds and its record gets iteration 1. *)
Theorem first_cycle_after_registration generated db n db' g p e :
  referential_integrity db = true ->
  insert_agent generated db n = (db', Ok g) ->
  insert db (cycle (id g) p e) = (db, Err foreign_key_violation) /\
  insert db' (cycle (id g) p e)
  = (store_row db' {| agent_id := id g; iteration := 1;
                      plan_result := p; execution_result := e |},
     Ok {| agent_id := id g; iteration := 1;
           plan_result := p; execution_result := e |}).
Proof.
  intros Hri Hins.
  destruct (insert_agent_cases generated db n)
    as [[_ [err He]]|(g' & Hins' & Hnew & _)].
  { rewrite Hins in He. discriminate He. }
  rewrite Hins in Hins'. injection Hins' as -> <-.
  pose proof (unknown_agent_no_rows db (id g) Hri Hnew) as Hnone.
  assert (Hnf : next_free (agent_loops db) (id g) = 1).
  { unfold next_free. rewrite Hnone. reflexivity. }
  split.
  - unfold insert. rewrite before_insert_cycle by (rewrite Hnf; discriminate).
    unfold complete_insert, check_constraints.
    cbn [append new_agent_id new_iteration].
    rewrite next_free_unused, Hnew. reflexivity.
  - rewrite insert_cycle_ok; cbn [agents agent_loops].
    + rewrite Hnf. reflexivity.
    + rewrite agent_exists_app, N.eqb_refl. apply orb_true_r.
    + rewrite Hnf. discriminate.
Qed.

Lemma first_cycle_after_registration_witness :
  insert db_A1 (cycle 2%N None None) = (db_A1, Err foreign_key_violation) /\
  snd (insert (fst (insert_agent 2%N db_A1
                      {| new_id := id_default; new_session_id := Some 100%N;
                         new_intent := None |}))
              (cycle 2%N None None))
  = Ok {| agent_id := 2%N; iteration := 1;
          plan_result := None; execution_result := None |}.
Proof.
  destruct (first_cycle_after_registration 2%N db_A1
              {| new_id := id_default; new_session_id := Some 100%N;
                 new_intent := None |}
              (fst (insert_agent 2%N db_A1
                      {| new_id := id_default;
                         new_session_id := Some 100%N;
                         new_intent := None |}))
              {| id := 2%N; session_id := 100%N; intent := None |}
              None None) as [H1 H2].
  - reflexivity.
  - reflexivity.
  - split; [exact H1|]. cbn [id] in H2. rewrite H2. reflexivity.
Defined.

(** *** The [INTEGER] range *)

Lemma int4_bounds z : int4 z = true <-> INT_MIN <= z <= INT_MAX.
Proof. unfold int4. rewrite andb_true_iff, !Z.leb_le. tauto. Qed.

Lemma before_insert_typed db n n' :
  Forall (fun i => int4 i = true) (map iteration (agent_loops db)) ->
  before_insert db n = Ok n' ->
  exists i, new_iteration n' = Some i /\ int4 i = true.
Proof.
  intros Hdb. unfold before_insert, next_iteration.
  destruct (new_iteration n) as [i|] eqn:Ei.
  - destruct (int4 i) eqn:Hi; [|discriminate].
    intros H; injection H as <-. eauto.
  - unfold coalesce_max_plus_1, select_max_iteration.
    destruct (new_agent_id n) as [a|].
    + destruct (sql_max (iterations_of (agent_loops db) a)) as [m|] eqn:E.
      * destruct (Z.leb_spec (m + 1) INT_MAX) as [Hle|Hgt]; [|discriminate].
        intros H; injection H as <-. simpl. eexists; split; [reflexivity|].
        apply sql_max_Some in E. destruct E as [Hin _].
        unfold iterations_of in Hin. apply in_map_iff in Hin.
        destruct Hin as (r & <- & Hr). apply filter_In in Hr.
        destruct Hr as [Hr _]. rewrite Forall_forall in Hdb.
        assert (Hm : int4 (iteration r) = true).
        { apply Hdb. apply in_map. exact Hr. }
        apply int4_bounds in Hm. apply int4_bounds. lia.
      * intros H; injection H as <-. simpl. eauto.
    + intros H; injection H as <-. simpl. eauto.
Qed.

(** X12. Every stored iteration is an [INTEGER]: if the iterations in the
    table are within -2147483648 .. 2147483647, so are they after any
    interleaving of calls that start from insert statements, and after any
    sequence of inserts, whatever iterations the statements supply. *)
Theorem iterations_stay_in_range cfg sched ns :
  Forall (fun i => int4 i = true)
         (map iteration (agent_loops (store cfg))) ->
  forallb call_typed (calls cfg) = true ->
  Forall (fun i => int4 i = true)
         (map iteration (agent_loops (store (run sched cfg)))) /\
  Forall (fun i => int4 i = true)
         (map iteration (agent_loops (fst (insert_all (store cfg) ns)))).
Proof.
  assert (Hstep : forall c i,
            Forall (fun i => int4 i = true)
                   (map iteration (agent_loops (store c))) /\
            forallb call_typed (calls c) = true ->
            Forall (fun i => int4 i = true)
                   (map iteration (agent_loops (store (step c i)))) /\
            forallb call_typed (calls (step c i)) = true).
  { intros c i [Hdb Hcs]. unfold step.
    destruct (nth_error (calls c) i) as [cl|] eqn:Hn; [|split; assumption].
    assert (Hcl : call_typed cl = true).
    { rewrite forallb_forall in Hcs. apply Hcs.
      eapply nth_error_In; eauto. }
    assert (Hrep : forall cl', call_typed cl' = true ->
              forallb call_typed (replace_nth i cl' (calls c)) = true).
    { intros cl' Hcl'. apply forallb_forall. apply Forall_forall.
      apply Forall_replace_nth; [|exact Hcl'].
      apply Forall_forall. apply forallb_forall. exact Hcs. }
    destruct cl as [n|n|res]; cbn [advance].
    - destruct (before_insert (store c) n) as [n'|e] eqn:Hb; cbn [store calls].
      + split; [exact Hdb|]. apply Hrep. simpl.
        destruct (before_insert_typed _ _ _ Hdb Hb) as (v & -> & Hv).
        exact Hv.
      + split; [exact Hdb|]. apply Hrep. reflexivity.
    - destruct (complete_insert_cases (store c) n)
        as [[Hs _]|(r & Hc & _ & Hi & _)].
      + destruct (complete_insert (store c) n) as [db' res]. simpl in Hs.
        subst db'. cbn [store calls]. split; [exact Hdb|].
        apply Hrep. reflexivity.
      + rewrite Hc. cbn [store calls store_row agent_loops]. split.
        * rewrite map_app. apply Forall_app. split; [exact Hdb|].
          constructor; [|constructor]. simpl in Hcl. rewrite Hi in Hcl.
          exact Hcl.
        * apply Hrep. reflexivity.
    - cbn [store calls]. split; [exact Hdb|]. apply Hrep. reflexivity. }
  assert (Hrun : forall s c,
            Forall (fun i => int4 i = true)
                   (map iteration (agent_loops (store c))) /\
            forallb call_typed (calls c) = true ->
            Forall (fun i => int4 i = true)
                   (map iteration (agent_loops (store (run s c))))).
  { induction s as [|i s IH]; intros c H; simpl; [apply H|].
    apply IH. apply Hstep. exact H. }
  intros Hdb Hcs. split.
  - apply Hrun. split; assumption.
  - assert (Heq : store (run (serial 0 (length ns))
                               {| store := store cfg;
                                  calls := map Calling ns |})
                  = fst (insert_all (store cfg) ns))
      by exact (f_equal store (serial_run_from ns [] (store cfg))).
    rewrite <- Heq. apply Hrun. cbn [store calls app]. split; [exact Hdb|].
    apply forallb_forall. intros c Hc. apply in_map_iff in Hc.
    destruct Hc as (n & <- & _). reflexivity.
Qed.

Lemma iterations_stay_in_range_witness :
  Forall (fun i => int4 i = true)
         (map iteration
            (agent_loops
               (store (run [0%nat; 0%nat]
                           {| store := db_A1;
                              calls := [Calling (append 1%N 4294967296
                                                        None None)] |})))).
Proof.
  destruct (iterations_stay_in_range
              {| store := db_A1;
                 calls := [Calling (append 1%N 4294967296 None None)] |}
              [0%nat; 0%nat] []) as [H _].
  - simpl. constructor.
  - reflexivity.
  - exact H.
Defined.

End LedgerExtras.

(* ===================================================================== *)
(** ** Further properties of the route and the components *)
(* ===================================================================== *)

Module WebExtras.
Import Json WebFacts.
Local Open Scope string_scope.

Section RouteAndForm.
Import SubmitRoute FormComponent.
Context {number : Type} (number_is_zero : number -> bool)
  (number_json : number -> value number).
Implicit Types (st : state number)
  (backend server : value number -> fetch_result number).

(** X13. When the backend answers with JSON other than [null], whatever its
    HTTP status, the route answers 200 with an object that mirrors the
    reply on [sessionId], [debuggingUrl], [status] and [title]: a field the
    reply has is present with the reply's value as [JSON.stringify] writes
    it (a number that is not finite as [null], [-0] as [0]), a field the
    reply lacks is absent. The object has no other field: nothing else of
    the backend's reply gets through. *)
Theorem route_mirrors_four_fields (data : value number) backend http reply :
  backend (reserialised number_json data) = Reply http (Some reply) ->
  reply <> JNull ->
  status (POST number_json (Some data) backend) = 200 /\
  exists fields,
    body (POST number_json (Some data) backend) = JObject fields /\
    (forall k,
       In k ["sessionId"; "debuggingUrl"; "status"; "title"] ->
       exists p,
         property reply k = Returned p /\
         lookup k fields = option_map (reserialised number_json) p) /\
    (forall k v,
       In (k, v) fields ->
       In k ["sessionId"; "debuggingUrl"; "status"; "title"]).
Proof.
  intros Hb Hnull.
  destruct (POST_returned number_json (Some data) backend data http reply
              eq_refl Hb Hnull)
    as (sid & dbg & stt & ttl & H1 & H2 & H3 & H4 & ->).
  split; [reflexivity|]. eexists. split; [reflexivity|]. split.
  - intros k [<-|[<-|[<-|[<-|[]]]]].
    + exists sid. split; [exact H1|].
      destruct sid, dbg, stt, ttl; reflexivity.
    + exists dbg. split; [exact H2|].
      destruct sid, dbg, stt, ttl; reflexivity.
    + exists stt. split; [exact H3|].
      destruct sid, dbg, stt, ttl; reflexivity.
    + exists ttl. split; [exact H4|].
      destruct sid, dbg, stt, ttl; reflexivity.
  - intros k v Hin.
    destruct sid, dbg, stt, ttl; simpl in Hin;
      repeat (destruct Hin as [Hin|Hin];
              [injection Hin as <- _; simpl; tauto|]);
      destruct Hin.
Qed.

Lemma handleSubmit_ok server st http result :
  server (request_body (data st)) = Reply http (Some result) ->
  ok http = true ->
  handleSubmit number_is_zero server st
  = {| data := {| url := ""; intent := ""; context := "" |};
       submitted := true; loading := false; error := None |}.
Proof.
  intros Hs Hok. unfold handleSubmit, submit_settle, submit_try.
  cbn [submit_start setError setLoading data]. rewrite Hs. simpl.
  rewrite Hok. reflexivity.
Qed.

(** X14. The form in front of the route. When a statement of the route's
    [try] block throws (backend unreachable, reply not JSON or [null]), the
    form keeps its fields and its flag, shows the route's message
    ['Something went wrong'] and is no longer loading. In every other case,
    the route having answered 200, the fields are emptied, [submitted] is
    set and there is no error. *)
Theorem form_in_front_of_route backend st :
  (throws number_json (Some (request_body (data st))) backend = true ->
   handleSubmit number_is_zero (route_server number_json backend) st
   = {| data := data st; submitted := submitted st; loading := false;
        error := Some (JString "Something went wrong") |}) /\
  (throws number_json (Some (request_body (data st))) backend = false ->
   handleSubmit number_is_zero (route_server number_json backend) st
   = {| data := {| url := ""; intent := ""; context := "" |};
        submitted := true; loading := false; error := None |}).
Proof.
  split; intros Ht.
  - unfold handleSubmit, route_server. cbn [submit_start setError setLoading data].
    rewrite (POST_thrown _ _ _ Ht). reflexivity.
  - apply (handleSubmit_ok (route_server number_json backend) st
             (status (POST number_json
                        (Some (request_body (data st))) backend))
             (body (POST number_json
                      (Some (request_body (data st))) backend))).
    + reflexivity.
    + rewrite (POST_not_thrown _ _ _ Ht). reflexivity.
Qed.

(** X15. A successful submission and the timer bring the form back to where
    it started: when the response is [ok] with a JSON body, the component
    shows the success message, and once the timeout has elapsed its state
    is the initial one, whatever it was before. *)
Theorem success_then_timeout_resets server st http result :
  server (request_body (data st)) = Reply http (Some result) ->
  ok http = true ->
  render number_is_zero (handleSubmit number_is_zero server st)
  = Returned (success_message "Form submitted successfully!") /\
  timeout_elapsed (handleSubmit number_is_zero server st) = initial.
Proof.
  intros Hs Hok. rewrite (handleSubmit_ok server st http result Hs Hok).
  split; reflexivity.
Qed.

(** X16. After a failed submission of a displayed form the error cell holds
    a truthy value. When React accepts it as a child (text, a number, a
    boolean, an array of these) the user sees the form as it was, ready to
    be sent again: the same three inputs, the button enabled and labelled
    [Submit], and the value in an error paragraph; when it is an object, as
    [result.error] may be, rendering throws. After a rejected [fetch], or a
    body that is not JSON, the paragraph is
    ['Error occurred while submitting :(']. *)
Theorem failed_submission_view server st :
  submitted st = false ->
  request_failed (server (request_body (data st))) = true ->
  (exists e,
     error (handleSubmit number_is_zero server st) = Some e /\
     truthy number_is_zero (Some e) = true /\
     render number_is_zero (handleSubmit number_is_zero server st)
     = if renderable e
       then Returned
              (form_view (url (data st)) (intent (data st))
                 (context (data st)) false "Submit" (error_paragraph e))
       else Thrown) /\
  (server (request_body (data st)) = NetworkError \/
   (exists http, server (request_body (data st)) = Reply http None) ->
   render number_is_zero (handleSubmit number_is_zero server st)
   = Returned
       (form_view (url (data st)) (intent (data st)) (context (data st))
          false "Submit"
          (error_paragraph (JString "Error occurred while submitting :(")))).
Proof.
  intros Hsub Hf.
  assert (Hview : forall e,
            error (handleSubmit number_is_zero server st) = Some e ->
            truthy number_is_zero (Some e) = true ->
            render number_is_zero (handleSubmit number_is_zero server st)
            = if renderable e
              then Returned
                     (form_view (url (data st)) (intent (data st))
                        (context (data st)) false "Submit"
                        (error_paragraph e))
              else Thrown).
  { intros e He Ht. unfold handleSubmit in *.
    destruct (submit_settle_failed number_is_zero _ (submit_start st) Hf)
      as (Hd & Hs & _).
    assert (Hl : loading (submit_settle number_is_zero
                            (server (request_body (data st)))
                            (submit_start st)) = false) by reflexivity.
    unfold render. rewrite Hs, Hd, Hl, He, Ht.
    cbn [submit_start setError setLoading submitted data]. rewrite Hsub.
    destruct (renderable e); reflexivity. }
  split.
  - destruct (submit_settle_failed number_is_zero _ (submit_start st) Hf)
      as (_ & _ & He).
    fold (handleSubmit number_is_zero server st) in He.
    destruct (error (handleSubmit number_is_zero server st)) as [e|] eqn:Ee;
      [|discriminate He].
    exists e. split; [reflexivity|]. split; [exact He|].
    apply Hview; [reflexivity|exact He].
  - intros Hthrown.
    assert (He : error (handleSubmit number_is_zero server st)
                 = Some (JString "Error occurred while submitting :(")).
    { unfold handleSubmit. destruct Hthrown as [->|[http ->]]; reflexivity. }
    rewrite (Hview _ He eq_refl). reflexivity.
Qed.

(** X17. [handleChange] writes the named field and nothing else: the
    request that will be sent carries the typed text under the input's key
    and the old values under the other keys; the flags and the error stay;
    changes to different inputs commute, and a later change to the same
    input wins. *)
Theorem handleChange_writes_one_field name v st :
  property (request_body (number := number)
                         (data (handleChange name v st))) (key_of name)
  = Returned (Some (JString v)) /\
  (forall other, other <> name ->
     property (request_body (number := number)
                            (data (handleChange name v st))) (key_of other)
     = property (request_body (number := number) (data st)) (key_of other)) /\
  submitted (handleChange name v st) = submitted st /\
  loading (handleChange name v st) = loading st /\
  error (handleChange name v st) = error st /\
  (forall name' v', name' <> name ->
     handleChange name v (handleChange name' v' st)
     = handleChange name' v' (handleChange name v st)) /\
  (forall v', handleChange name v (handleChange name v' st)
              = handleChange name v st).
Proof.
  repeat split.
  - destruct name; reflexivity.
  - intros other Hne. destruct name, other; try reflexivity;
      exfalso; apply Hne; reflexivity.
  - intros name' v' Hne. destruct name, name'; try reflexivity;
      exfalso; apply Hne; reflexivity.
  - intros v'. destruct name; reflexivity.
Qed.

(** X18. The error cell is [null] or truthy, never a falsy value such as
    [0] or the empty string: every handler keeps this, so the component
    never renders a bare falsy value in place of the error paragraph. *)
Theorem error_is_null_or_truthy st o name v :
  error st = None \/ truthy number_is_zero (error st) = true ->
  (error (handleChange name v st) = None \/
   truthy number_is_zero (error (handleChange name v st)) = true) /\
  (error (submit_start st) = None \/
   truthy number_is_zero (error (submit_start st)) = true) /\
  (error (submit_settle number_is_zero o st) = None \/
   truthy number_is_zero (error (submit_settle number_is_zero o st)) = true) /\
  (error (timeout_elapsed st) = None \/
   truthy number_is_zero (error (timeout_elapsed st)) = true) /\
  (forall u i c d l e,
     render number_is_zero st
     <> Returned (form_view u i c d l (no_paragraph (Some e)))).
Proof.
  intros Hinv. repeat split.
  - exact Hinv.
  - left. reflexivity.
  - destruct (request_failed o) eqn:Hf.
    + right. apply (submit_settle_failed number_is_zero o st Hf).
    + destruct o as [|http [result|]]; try discriminate Hf.
      * simpl in Hf. apply negb_false_iff in Hf.
        unfold submit_settle, submit_try. simpl. rewrite Hf. exact Hinv.
      * right. reflexivity.
  - unfold timeout_elapsed. destruct (submitted st); exact Hinv.
  - intros u i c d l e. unfold render. destruct (submitted st); [discriminate|].
    destruct (error st) as [e0|] eqn:He; [|discriminate].
    destruct Hinv as [Hn|Ht]; [discriminate Hn|].
    rewrite Ht. destruct (renderable e0); discriminate.
Qed.

End RouteAndForm.

(** *** The browser view *)

Section BrowserViewFacts.
Context {number : Type} (number_is_zero : number -> bool).

(** X20. [handleExecute] swallows its failures and trusts its successes.
    When the [fetch] is rejected, or the body is not JSON, or is [null], the
    cell [debuggingUrl] is left as it was. Otherwise it becomes the reply's
    [debuggingUrl], whatever the HTTP status: the view then shows the
    iframe with that source when the value is truthy, and a reply without
    the property puts the view back to "no active session" even if a
    session was shown before. *)
Theorem handleExecute_outcomes (o : fetch_result number)
  (debuggingUrl : option (value number)) (st : BrowserView.state number) :
  (o = NetworkError \/ (exists http, o = Reply http None) \/
   (exists http, o = Reply http (Some JNull)) ->
   HomePage.handleExecute o debuggingUrl = debuggingUrl) /\
  (forall http data,
     o = Reply http (Some data) -> data <> JNull ->
     Returned (HomePage.handleExecute o debuggingUrl)
     = property data "debuggingUrl") /\
  (forall http fields src,
     o = Reply http (Some (JObject fields)) ->
     lookup "debuggingUrl" fields = Some src ->
     truthy number_is_zero (Some src) = true ->
     fst (BrowserView.render number_is_zero
            (HomePage.handleExecute o debuggingUrl) st)
     = BrowserView.iframe src) /\
  (forall http fields,
     o = Reply http (Some (JObject fields)) ->
     lookup "debuggingUrl" fields = None ->
     fst (BrowserView.render number_is_zero
            (HomePage.handleExecute o debuggingUrl) st)
     = BrowserView.no_active_session).
Proof.
  repeat split.
  - intros [->|[[http ->]|[http ->]]]; reflexivity.
  - intros http data -> Hnull. unfold HomePage.handleExecute. simpl.
    destruct data; try reflexivity. exfalso; apply Hnull; reflexivity.
  - intros http fields src -> Hl Ht. unfold HomePage.handleExecute.
    cbn [bind await property]. rewrite Hl.
    unfold BrowserView.render. cbn [fst]. rewrite Ht. reflexivity.
  - intros http fields -> Hl. unfold HomePage.handleExecute. simpl.
    rewrite Hl. reflexivity.
Qed.

Lemma fetchSessions_steps (o : fetch_result number)
  (st : BrowserView.state number) :
  BrowserView.fetchSessions o st = BrowserView.setLoading false st.
Proof.
  unfold BrowserView.fetchSessions.
  destruct o as [|http [data|]]; reflexivity.
Qed.

(** X21. The sidebar never receives a session. [fetchSessions] calls
    [setSessions], which the module does not declare, so whatever the
    server answers the call ends in the [catch] block: [steps] keeps its
    value through any number of polls, and after the first poll the
    component, started from its initial state, shows an empty list instead
    of the loading text. *)
Theorem polling_never_fills_steps (os : list (fetch_result number))
  (st : BrowserView.state number) debuggingUrl :
  BrowserView.steps (BrowserView.poll os st) = BrowserView.steps st /\
  (os <> [] ->
   BrowserView.loading (BrowserView.poll os st) = false /\
   snd (BrowserView.render number_is_zero debuggingUrl
          (BrowserView.poll os BrowserView.initial))
   = BrowserView.step_list []).
Proof.
  assert (Hpoll : forall (os0 : list (fetch_result number))
                          (st0 : BrowserView.state number),
            BrowserView.steps (BrowserView.poll os0 st0)
            = BrowserView.steps st0 /\
            (os0 <> [] ->
             BrowserView.loading (BrowserView.poll os0 st0) = false)).
  { induction os0 as [|o os0 IH]; intros st0.
    - split; [reflexivity|]. intros H; exfalso; apply H; reflexivity.
    - unfold BrowserView.poll in *. cbn [fold_left].
      rewrite fetchSessions_steps.
      destruct (IH (BrowserView.setLoading false st0)) as [IH1 IH2].
      split; [rewrite IH1; reflexivity|]. intros _.
      destruct os0 as [|o' os1]; [reflexivity|].
      apply IH2. discriminate. }
  split; [apply Hpoll|]. intros Hne. split; [apply Hpoll; exact Hne|].
  unfold BrowserView.render. simpl snd.
  destruct (Hpoll os BrowserView.initial) as [Hs Hl].
  rewrite (Hl Hne), Hs. reflexivity.
Qed.

End BrowserViewFacts.

(** *** The dashboard *)

Section DashboardFacts.
Import DashboardComponent.
Context {number : Type} (literal : Z -> number).

Lemma toggles_parity evs : forall st,
  showStreaming (fold_left handle evs st)
  = (if Nat.even (length (filter is_toggle evs))
     then showStreaming st else negb (showStreaming st)) /\
  loading (fold_left handle evs st)
  = loading st && negb (existsb is_timeout evs).
Proof.
  induction evs as [|ev evs IH]; intros st.
  - simpl. rewrite andb_true_r. auto.
  - cbn [fold_left]. destruct (IH (handle st ev)) as [IH1 IH2].
    rewrite IH1, IH2. destruct ev; cbn [handle filter is_toggle is_timeout
                                        existsb handleToggle timeout_elapsed
                                        showStreaming loading length].
    + split.
      * rewrite Nat.even_succ, <- Nat.negb_even.
        destruct (Nat.even (length (filter is_toggle evs)));
          destruct (showStreaming st); reflexivity.
      * reflexivity.
    + split; [reflexivity|]. simpl. rewrite andb_false_r. reflexivity.
Qed.

(** X22. After any sequence of button clicks and timer callbacks, the
    stream is shown exactly when the number of clicks is even, and then it
    is the four mock cards (the dashboard passes no metrics); otherwise the
    text "Loading..." is shown. The spinner is shown until the timer has
    fired, and clicks never bring it back. *)
Theorem dashboard_after_events fresh (evs : list event) :
  showStreaming (after evs) = Nat.even (length (filter is_toggle evs)) /\
  spinner (render literal fresh (after evs))
  = negb (existsb is_timeout evs) /\
  (Nat.even (length (filter is_toggle evs)) = true ->
   button (render literal fresh (after evs)) = "Hide Stream" /\
   exists cards,
     stream (render literal fresh (after evs)) = metrics_cards cards /\
     map (@MetricsComponent.heading number) cards
     = ["Completion Rate"; "Steps to completion"; "Error Rate";
        "Recommendation"]) /\
  (Nat.even (length (filter is_toggle evs)) = false ->
   button (render literal fresh (after evs)) = "Load Stream" /\
   stream (render literal fresh (after evs)) = text "Loading...").
Proof.
  destruct (toggles_parity evs initial) as [Hs Hl].
  fold (after evs) in Hs, Hl. cbn [initial showStreaming loading] in Hs, Hl.
  assert (Hshow : showStreaming (after evs)
                  = Nat.even (length (filter is_toggle evs))).
  { rewrite Hs. destruct (Nat.even _); reflexivity. }
  split; [exact Hshow|]. split; [exact Hl|]. unfold render.
  cbn [button stream]. rewrite Hshow. split; intros ->.
  - split; [reflexivity|]. eexists. split; reflexivity.
  - split; reflexivity.
Qed.

End DashboardFacts.

(** *** Instances *)

Lemma route_mirrors_four_fields_witness :
  SubmitRoute.status
    (SubmitRoute.POST integer_json (Some (JObject []))
       SubmitRoute.sample_backend) = 200.
Proof.
  destruct (route_mirrors_four_fields integer_json (JObject [])
              SubmitRoute.sample_backend 200 SubmitRoute.sample_reply)
    as [H _].
  - reflexivity.
  - discriminate.
  - exact H.
Defined.

Lemma form_in_front_of_route_witness :
  FormComponent.handleSubmit FormComponent.is_zero
    (FormComponent.route_server integer_json SubmitRoute.sample_backend)
    FormComponent.sample_state
  = {| FormComponent.data :=
         {| FormComponent.url := ""; FormComponent.intent := "";
            FormComponent.context := "" |};
       FormComponent.submitted := true; FormComponent.loading := false;
       FormComponent.error := None |}.
Proof.
  destruct (form_in_front_of_route FormComponent.is_zero integer_json
              SubmitRoute.sample_backend FormComponent.sample_state)
    as [_ H].
  apply H. reflexivity.
Defined.

Lemma success_then_timeout_resets_witness :
  FormComponent.timeout_elapsed
    (FormComponent.handleSubmit FormComponent.is_zero
       (fun _ => Reply 200 (Some JNull)) FormComponent.sample_state)
  = FormComponent.initial.
Proof.
  destruct (success_then_timeout_resets FormComponent.is_zero
              (fun _ => Reply 200 (Some JNull)) FormComponent.sample_state
              200 JNull) as [_ H].
  - reflexivity.
  - reflexivity.
  - exact H.
Defined.

Lemma failed_submission_view_witness :
  FormComponent.render FormComponent.is_zero
    (FormComponent.handleSubmit FormComponent.is_zero
       (fun _ => NetworkError) FormComponent.sample_state)
  = Returned
      (FormComponent.form_view "https://example.com" "buy shoes" ""
         false "Submit"
         (FormComponent.error_paragraph
            (JString "Error occurred while submitting :("))).
Proof.
  destruct (failed_submission_view FormComponent.is_zero
              (fun _ => NetworkError) FormComponent.sample_state) as [_ H].
  - reflexivity.
  - reflexivity.
  - apply H. left. reflexivity.
Defined.

Lemma handleChange_writes_one_field_witness :
  property
    (FormComponent.request_body (number := Z)
       (FormComponent.data
          (FormComponent.handleChange FormComponent.name_url "https://b.example"
             FormComponent.sample_state))) "intent"
  = Returned (Some (JString "buy shoes")).
Proof.
  destruct (handleChange_writes_one_field (number := Z)
              FormComponent.name_url "https://b.example"
              FormComponent.sample_state) as (_ & H & _).
  apply (H FormComponent.name_intent). discriminate.
Defined.

Lemma error_is_null_or_truthy_witness :
  FormComponent.error
    (FormComponent.submit_settle FormComponent.is_zero
       (Reply 500 (Some (JObject [("error", JNumber 0)])))
       FormComponent.sample_state) = None \/
  truthy FormComponent.is_zero
    (FormComponent.error
       (FormComponent.submit_settle FormComponent.is_zero
          (Reply 500 (Some (JObject [("error", JNumber 0)])))
          FormComponent.sample_state)) = true.
Proof.
  destruct (error_is_null_or_truthy FormComponent.is_zero
              FormComponent.sample_state
              (Reply 500 (Some (JObject [("error", JNumber 0)])))
              FormComponent.name_url "") as (_ & _ & H & _).
  - left. reflexivity.
  - exact H.
Defined.

Lemma handleExecute_outcomes_witness :
  fst (BrowserView.render FormComponent.is_zero
         (HomePage.handleExecute (Reply 200 (Some SubmitRoute.sample_reply))
            None)
         BrowserView.initial)
  = BrowserView.iframe (JString "ws://localhost:9222/devtools").
Proof.
  destruct (handleExecute_outcomes FormComponent.is_zero
              (Reply 200 (Some SubmitRoute.sample_reply)) None
              BrowserView.initial) as (_ & _ & H & _).
  apply (H 200 (match SubmitRoute.sample_reply with
                | JObject fields => fields
                | _ => []
                end)); reflexivity.
Defined.

Lemma polling_never_fills_steps_witness :
  snd (BrowserView.render FormComponent.is_zero None
         (BrowserView.poll [Reply 200 (Some (JObject [("sessions", JArray [])]))]
            BrowserView.initial))
  = BrowserView.step_list [].
Proof.
  destruct (polling_never_fills_steps FormComponent.is_zero
              [Reply 200 (Some (JObject [("sessions", JArray [])]))]
              BrowserView.initial None) as [_ H].
  apply H. discriminate.
Defined.

Lemma dashboard_after_events_witness :
  DashboardComponent.button
    (DashboardComponent.render (fun z : Z => z) 0%nat
       (DashboardComponent.after
          [DashboardComponent.toggle; DashboardComponent.timeout;
           DashboardComponent.toggle]))
  = "Hide Stream".
Proof.
  destruct (dashboard_after_events (fun z : Z => z) 0%nat
              [DashboardComponent.toggle; DashboardComponent.timeout;
               DashboardComponent.toggle]) as (_ & _ & H & _).
  apply H. reflexivity.
Defined.

End WebExtras.
